(** * Rock-paper-scissors gesture game: the round controller, the outcome
      resolver and the preprocessing of the classifier's input.

    The development follows the TypeScript sources:
    - [App]      : src/src/App.tsx (the React component of the game),
    - [Predict]  : src/rps-model/src/predict.ts (command-line inference),
    - [Train]    : src/rps-model/src/train.ts (training, 64x64 variant),
    - [FastTrain]: the second training script of the repository (16x16).

    Numbers that are JavaScript doubles are modelled by rationals ([Q]):
    every finite double is a rational and the comparisons agree; rounding
    of the arithmetic is not modelled, and statements are made where it
    cannot change them: bounds with room to spare, a factor of zero, a
    margin around a threshold.  The numbers that an arbitrary model file
    returns in predict.ts may be NaN or infinite ([Number]).  Integer
    counters are [Z]. *)

From Stdlib Require Import ZArith QArith Qround Qminmax List Bool Lia Lqa.
From Stdlib Require Import Strings.Byte Strings.String Sorting.Permutation.
Import ListNotations.

Local Open Scope Z_scope.

(** ** Results of calls that may throw *)

(** The exceptions that can end a call: the ones the browser or the
    libraries raise.  The payload of a library error is not looked at. *)
Inductive Error : Type :=
| IndexSizeError      (* DOMException of getImageData: empty source rectangle *)
| ShapeError          (* tf.tensor3d: the data does not fill the shape *)
| InferenceError      (* model.predict rejected its input or failed *)
| HandsError.         (* hands.send rejected *)

(** A call either returns a value or throws; for an async function:
    its promise is fulfilled or rejected. *)
Inductive Completion (A : Type) : Type :=
| Normal (a : A)
| Abrupt (e : Error).

Arguments Normal {A} a.
Arguments Abrupt {A} e.

Definition bind {A B : Type} (c : Completion A) (k : A -> Completion B)
  : Completion B :=
  match c with
  | Normal a => k a
  | Abrupt e => Abrupt e
  end.

Notation "'do' x <- c ; k" := (bind c (fun x => k))
  (at level 10, x name, c at level 100, k at level 200).

(** ** Tensors *)

(** A dense tensor: its shape and its entries in row-major order. *)
Module Tensor.
Record t : Type := mk { shape : list Z; values : list Q }.

(** [tensor.div(c)]: every entry divided by the scalar. *)
Definition div (c : Q) (a : t) : t :=
  mk (shape a) (map (fun v => (v / c)%Q) (values a)).

(** [tensor.expandDims(0)]: a leading axis of size one. *)
Definition expandDims0 (a : t) : t := mk (1 :: shape a) (values a).
End Tensor.

(** The unsigned value of a byte of a [Uint8Array] or [Uint8ClampedArray]. *)
Definition byteVal (b : byte) : Z := Z.of_N (Byte.to_N b).

(** [tf.tensor3d(new Uint8Array(buffer), shape, 'float32')]: the bytes as
    numbers; tf throws when the buffer does not hold exactly the product of
    the shape. *)
Definition tensor3d (buffer : list byte) (shape : list Z)
  : Completion Tensor.t :=
  if Z.of_nat (List.length buffer) =? fold_right Z.mul 1 shape
  then Normal (Tensor.mk shape (map (fun b => inject_Z (byteVal b)) buffer))
  else Abrupt ShapeError.

(** One argument more for [Math.max]: the greater of the maximum so far
    and [x]. *)
Definition Math_max_step (acc : option Q) (x : Q) : option Q :=
  match acc with
  | None => Some x
  | Some m => Some (if Qle_bool m x then x else m)
  end.

(** [Math.max(...xs)] on finite numbers: [None] stands for -Infinity, the
    value on no argument.  ([Math_max_numbers] below takes NaN and the
    infinities in.) *)
Definition Math_max (xs : list Q) : option Q :=
  fold_left Math_max_step xs None.

(** [xs.indexOf(v)]: the first index holding [v] (compared by [===]),
    or -1. *)
Fixpoint indexOf_from (xs : list Q) (v : Q) (i : Z) : Z :=
  match xs with
  | [] => -1
  | x :: rest => if Qeq_bool x v then i else indexOf_from rest v (i + 1)
  end.

Definition indexOf (xs : list Q) (v : option Q) : Z :=
  match v with
  | None => -1
  | Some q => indexOf_from xs q 0
  end.

(** [a[i]] on a JavaScript array: [None] stands for [undefined]. *)
Definition at_index {A : Type} (a : list A) (i : Z) : option A :=
  if i <? 0 then None else nth_error a (Z.to_nat i).

(** ** Numbers that need not be finite *)

(** A number as [dataSync] of an arbitrary model may hold it: finite, an
    infinity, or NaN. *)
Inductive Number : Type :=
| NaN
| Finite (q : Q)
| Infinite (positive : bool).

(** One argument more for [Math.max] on such numbers: NaN as soon as one
    of the two is NaN, otherwise the greater, the later one when they are
    equal. *)
Definition Number_greater (a b : Number) : Number :=
  match a, b with
  | NaN, _ => NaN
  | _, NaN => NaN
  | Infinite true, _ => Infinite true
  | _, Infinite true => Infinite true
  | Infinite false, x => x
  | x, Infinite false => x
  | Finite p, Finite q => Finite (if Qle_bool p q then q else p)
  end.

(** [Math.max(...xs)]: -Infinity on no argument. *)
Definition Math_max_numbers (xs : list Number) : Number :=
  fold_left Number_greater xs (Infinite false).

(** [a === b] on numbers: NaN is equal to nothing, not even to itself. *)
Definition Number_eqb (a b : Number) : bool :=
  match a, b with
  | Finite p, Finite q => Qeq_bool p q
  | Infinite s, Infinite t => Bool.eqb s t
  | _, _ => false
  end.

(** [xs.indexOf(v)] on numbers. *)
Fixpoint indexOf_numbers_from (xs : list Number) (v : Number) (i : Z) : Z :=
  match xs with
  | [] => -1
  | x :: rest =>
      if Number_eqb x v then i else indexOf_numbers_from rest v (i + 1)
  end.

Definition indexOf_numbers (xs : list Number) (v : Number) : Z :=
  indexOf_numbers_from xs v 0.

(** * src/src/App.tsx *)
Module App.

Inductive Gesture : Type := rock | paper | scissors.

Definition CLASSES : list Gesture := [rock; paper; scissors].

Inductive Outcome : Type := win | lose | tie.

(** [a === b] on two gestures. *)
Definition Gesture_eqb (a b : Gesture) : bool :=
  match a, b with
  | rock, rock | paper, paper | scissors, scissors => true
  | _, _ => false
  end.

(** The object [wins] of [determineWinner]: what each gesture beats. *)
Definition wins (g : Gesture) : Gesture :=
  match g with
  | rock => scissors
  | paper => rock
  | scissors => paper
  end.

Definition determineWinner (player computer : Gesture) : Outcome :=
  if Gesture_eqb player computer then tie
  else if Gesture_eqb (wins player) computer then win else lose.

(** The rule table of the specification (player row, computer column),
    written from the table of the specification and not from the code; it
    is what [determineWinner] is compared with. *)
Definition rule_table (player computer : Gesture) : Outcome :=
  match player, computer with
  | rock, rock => tie      | rock, paper => lose     | rock, scissors => win
  | paper, rock => win     | paper, paper => tie     | paper, scissors => lose
  | scissors, rock => lose | scissors, paper => win  | scissors, scissors => tie
  end.

(** ** The score *)

Record Score : Type := mkScore { player : Z; computer : Z; ties : Z }.

Inductive ScoreKey : Type := key_player | key_computer | key_ties.

(** [result === 'win' ? 'player' : result === 'lose' ? 'computer' : 'ties'] *)
Definition scoreKey (result : Outcome) : ScoreKey :=
  match result with
  | win => key_player
  | lose => key_computer
  | tie => key_ties
  end.

(** [prev[k]] *)
Definition getKey (k : ScoreKey) (prev : Score) : Z :=
  match k with
  | key_player => player prev
  | key_computer => computer prev
  | key_ties => ties prev
  end.

(** [{ ...prev, [k]: v }] *)
Definition setKey (k : ScoreKey) (v : Z) (prev : Score) : Score :=
  match k with
  | key_player => mkScore v (computer prev) (ties prev)
  | key_computer => mkScore (player prev) v (ties prev)
  | key_ties => mkScore (player prev) (computer prev) v
  end.

(** The updater handed to [setScore] in [playRound]. *)
Definition updateScore (result : Outcome) (prev : Score) : Score :=
  setKey (scoreKey result) (getKey (scoreKey result) prev + 1) prev.

(** [useState({ player: 0, computer: 0, ties: 0 })] *)
Definition initialScore : Score := mkScore 0 0 0.

(** ** Data of the component *)

Record PredictionResult : Type :=
  mkPrediction { gesture : Gesture; confidence : Q }.

(** A hand keypoint of MediaPipe, in fractions of the frame. *)
Module Landmark.
Record t : Type := mk { x : Q; y : Q }.
End Landmark.

(** The state [handBoundingBox], in fractions of the frame. *)
Module Box.
Record t : Type := mk { x : Q; y : Q; width : Q; height : Q }.
End Box.

(** One pixel of a canvas. *)
Record RGBA : Type := mkRGBA { red : byte; green : byte; blue : byte; alpha : byte }.

Definition transparentBlack : RGBA := mkRGBA x00 x00 x00 x00.

(** The bitmap of a canvas: its size and the colour at each position. *)
Record Bitmap : Type :=
  mkBitmap { bitmapWidth : Z; bitmapHeight : Z; colour : Z -> Z -> RGBA }.

Definition bitmapAt (b : Bitmap) (px py : Z) : RGBA :=
  if (0 <=? px) && (px <? bitmapWidth b) && (0 <=? py) && (py <? bitmapHeight b)
  then colour b px py
  else transparentBlack.

(** The DOM's [ImageData]: a rectangle of pixels; [data] is its byte array,
    row after row, four bytes a pixel. *)
Module ImageData.
Record t : Type := mk { pixel : Z -> Z -> RGBA; width : Z; height : Z }.

Definition range (n : Z) : list Z := map Z.of_nat (seq 0 (Z.to_nat n)).

Definition data (img : t) : list byte :=
  flat_map (fun row =>
    flat_map (fun col =>
      let c := pixel img col row in [red c; green c; blue c; alpha c])
      (range (width img)))
    (range (height img)).
End ImageData.

(** Conversion of a number to WebIDL [long]: the fraction is dropped. *)
Definition toLong (q : Q) : Z :=
  if Qle_bool 0 q then Qfloor q else Qceiling q.

(** [ctx.getImageData(sx, sy, sw, sh)] as the HTML standard defines it: the
    arguments are [long]; a zero width or height throws IndexSizeError;
    pixels outside the canvas are transparent black. *)
Definition getImageData (b : Bitmap) (sx sy sw sh : Q) : Completion ImageData.t :=
  let sx' := toLong sx in
  let sy' := toLong sy in
  let sw' := toLong sw in
  let sh' := toLong sh in
  if (sw' =? 0) || (sh' =? 0) then Abrupt IndexSizeError
  else
    let left := Z.min sx' (sx' + sw') in
    let top := Z.min sy' (sy' + sh') in
    Normal (ImageData.mk (fun i j => bitmapAt b (left + i) (top + j))
                         (Z.abs sw') (Z.abs sh')).

(** The video element: the size of its frames and the current frame. *)
Record Video : Type :=
  mkVideo { videoWidth : Z; videoHeight : Z; frame : Z -> Z -> RGBA }.

(** The hidden canvas: whether [getContext('2d')] gives a context. *)
Record Canvas : Type := mkCanvas { context2d : bool }.

(** [Math.random()]: a number in [0, 1), here [rnd_num / (rnd_num + rnd_gap)]. *)
Record Random : Type := mkRandom { rnd_num : N; rnd_gap : positive }.

Definition randomValue (r : Random) : Q :=
  Z.of_N (rnd_num r) #
  match rnd_num r with
  | N0 => rnd_gap r
  | Npos p => p + rnd_gap r
  end.

(** The output of the classifier: one probability per class, in the order
    of [CLASSES] (the last layer has [CLASSES.length] units). *)
Record Probabilities : Type :=
  mkProbabilities { p_rock : Q; p_paper : Q; p_scissors : Q }.

(** [prediction.dataSync()] *)
Definition dataSync (p : Probabilities) : list Q :=
  [p_rock p; p_paper p; p_scissors p].

(** [model.predict]: the classifier is a black box that returns
    probabilities or throws. *)
Definition Classifier : Type := Tensor.t -> Completion Probabilities.

(** What the browser and the libraries supply during one round. *)
Record Browser : Type := mkBrowser {
  videoRef : option Video;            (* videoRef.current *)
  canvasRef : option Canvas;          (* canvasRef.current *)
  handsSend : Completion (list (list Landmark.t));
                                      (* hands.send: results.multiHandLandmarks *)
  drawImage16 : ImageData.t -> Z -> Z -> RGBA;
                                      (* the 16x16 canvas after the scaled drawImage *)
  Math_random : Random
}.

(** The React state of the component. *)
Record State : Type := mkState {
  model : option Classifier;
  isCameraActive : bool;
  currentPrediction : option PredictionResult;
  computerChoice : option Gesture;
  gameResult : option Outcome;
  score : Score;
  isPlaying : bool;
  hands : bool;                       (* whether the Hands instance is set *)
  handDetected : bool;
  handBoundingBox : option Box.t;
  handLandmarks : list Landmark.t
}.

Definition setModel (v : option Classifier) (s : State) : State :=
  mkState v (isCameraActive s) (currentPrediction s) (computerChoice s)
          (gameResult s) (score s) (isPlaying s) (hands s) (handDetected s)
          (handBoundingBox s) (handLandmarks s).

Definition setIsCameraActive (v : bool) (s : State) : State :=
  mkState (model s) v (currentPrediction s) (computerChoice s)
          (gameResult s) (score s) (isPlaying s) (hands s) (handDetected s)
          (handBoundingBox s) (handLandmarks s).

Definition setCurrentPrediction (v : option PredictionResult) (s : State) : State :=
  mkState (model s) (isCameraActive s) v (computerChoice s)
          (gameResult s) (score s) (isPlaying s) (hands s) (handDetected s)
          (handBoundingBox s) (handLandmarks s).

Definition setComputerChoice (v : option Gesture) (s : State) : State :=
  mkState (model s) (isCameraActive s) (currentPrediction s) v
          (gameResult s) (score s) (isPlaying s) (hands s) (handDetected s)
          (handBoundingBox s) (handLandmarks s).

Definition setGameResult (v : option Outcome) (s : State) : State :=
  mkState (model s) (isCameraActive s) (currentPrediction s) (computerChoice s)
          v (score s) (isPlaying s) (hands s) (handDetected s)
          (handBoundingBox s) (handLandmarks s).

(** [setScore(prev => ...)]: the updater form. *)
Definition setScore (f : Score -> Score) (s : State) : State :=
  mkState (model s) (isCameraActive s) (currentPrediction s) (computerChoice s)
          (gameResult s) (f (score s)) (isPlaying s) (hands s) (handDetected s)
          (handBoundingBox s) (handLandmarks s).

Definition setIsPlaying (v : bool) (s : State) : State :=
  mkState (model s) (isCameraActive s) (currentPrediction s) (computerChoice s)
          (gameResult s) (score s) v (hands s) (handDetected s)
          (handBoundingBox s) (handLandmarks s).

Definition setHands (v : bool) (s : State) : State :=
  mkState (model s) (isCameraActive s) (currentPrediction s) (computerChoice s)
          (gameResult s) (score s) (isPlaying s) v (handDetected s)
          (handBoundingBox s) (handLandmarks s).

Definition setHandDetected (v : bool) (s : State) : State :=
  mkState (model s) (isCameraActive s) (currentPrediction s) (computerChoice s)
          (gameResult s) (score s) (isPlaying s) (hands s) v
          (handBoundingBox s) (handLandmarks s).

Definition setHandBoundingBox (v : option Box.t) (s : State) : State :=
  mkState (model s) (isCameraActive s) (currentPrediction s) (computerChoice s)
          (gameResult s) (score s) (isPlaying s) (hands s) (handDetected s)
          v (handLandmarks s).

Definition setHandLandmarks (v : list Landmark.t) (s : State) : State :=
  mkState (model s) (isCameraActive s) (currentPrediction s) (computerChoice s)
          (gameResult s) (score s) (isPlaying s) (hands s) (handDetected s)
          (handBoundingBox s) v.

(** The state of a freshly mounted component. *)
Definition initialState : State :=
  mkState None false None None None initialScore false false false None [].

(** ** The hand locator's callback *)

(** The loop over the landmarks in [onResults]: the least and greatest
    coordinates, from [minX = 1, minY = 1, maxX = 0, maxY = 0]. *)
Definition landmarkBounds (landmarks : list Landmark.t) : Q * Q * Q * Q :=
  fold_left
    (fun '(minX, minY, maxX, maxY) landmark =>
       (Qmin minX (Landmark.x landmark), Qmin minY (Landmark.y landmark),
        Qmax maxX (Landmark.x landmark), Qmax maxY (Landmark.y landmark)))
    landmarks (1%Q, 1%Q, 0%Q, 0%Q).

(** The padded box that [onResults] stores in [handBoundingBox]. *)
Definition boundingBox (landmarks : list Landmark.t) : Box.t :=
  let '(minX, minY, maxX, maxY) := landmarkBounds landmarks in
  let padding := (1 # 10)%Q in
  let width := (maxX - minX)%Q in
  let height := (maxY - minY)%Q in
  Box.mk (Qmax 0 (minX - padding * width))
         (Qmax 0 (minY - padding * height))
         (Qmin 1 (width + 2 * padding * width))
         (Qmin 1 (height + 2 * padding * height)).

(** [handsInstance.onResults(...)], on [results.multiHandLandmarks]. *)
Definition onResults (multiHandLandmarks : list (list Landmark.t)) (s : State)
  : State :=
  match multiHandLandmarks with
  | landmarks :: _ =>
      setHandBoundingBox (Some (boundingBox landmarks))
        (setHandLandmarks landmarks (setHandDetected true s))
  | [] =>
      setHandLandmarks [] (setHandBoundingBox None (setHandDetected false s))
  end.

(** ** predictGesture *)

(** The centre square of STEP 3: 60% of the smaller dimension. *)
Definition fallbackRegion (videoWidth videoHeight : Z) : Q * Q * Q * Q :=
  let centerSize := (inject_Z (Z.min videoWidth videoHeight) * (6 # 10))%Q in
  let centerX := ((inject_Z videoWidth - centerSize) / 2)%Q in
  let centerY := ((inject_Z videoHeight - centerSize) / 2)%Q in
  (centerX, centerY, centerSize, centerSize).

(** The crop of STEP 3 around the box of the detected hand; the products
    are the exact ones, the code's are rounded to doubles. *)
Definition handRegion (box : Box.t) (videoWidth videoHeight : Z) : Q * Q * Q * Q :=
  let cropX := (Box.x box * inject_Z videoWidth)%Q in
  let cropY := (Box.y box * inject_Z videoHeight)%Q in
  let cropWidth := (Box.width box * inject_Z videoWidth)%Q in
  let cropHeight := (Box.height box * inject_Z videoHeight)%Q in
  (cropX, cropY, cropWidth, cropHeight).

(** STEP 3: which rectangle of the frame is read.  [handDetected] and
    [handBoundingBox] are the values of the render that made the callback. *)
Definition cropRegion (s : State) (videoWidth videoHeight : Z) : Q * Q * Q * Q :=
  match handDetected s, handBoundingBox s with
  | true, Some box => handRegion box videoWidth videoHeight
  | _, _ => fallbackRegion videoWidth videoHeight
  end.

(** The alpha channel is dropped: [fromPixels] keeps three channels. *)
Fixpoint rgbOfRgba (data : list byte) : list byte :=
  match data with
  | r :: g :: b :: _ :: rest => r :: g :: b :: rgbOfRgba rest
  | _ => []
  end.

(** [tf.browser.fromPixels(img).toFloat()] *)
Definition fromPixels (img : ImageData.t) : Tensor.t :=
  Tensor.mk [ImageData.height img; ImageData.width img; 3]
            (map (fun b => inject_Z (byteVal b)) (rgbOfRgba (ImageData.data img))).

(** STEP 4: the crop is drawn scaled on a 16x16 canvas, which is read back. *)
Definition resize16 (env : Browser) (processedImageData : ImageData.t)
  : Completion ImageData.t :=
  getImageData (mkBitmap 16 16 (drawImage16 env processedImageData)) 0 0 16 16.

(** STEP 5: the tensor handed to the model, of shape [1, 16, 16, 3]. *)
Definition toTensor (finalImageData : ImageData.t) : Tensor.t :=
  Tensor.expandDims0 (Tensor.div 255 (fromPixels finalImageData)).

(** [v as Gesture] and the read of [probabilities[maxIndex]].  The index is
    always 0, 1 or 2, on the three probabilities of the classifier (lemma
    [maxIndex_dataSync]) as on the computer's draw (lemma
    [computerGesture_defined]), so neither default is ever taken. *)
Definition asGesture (v : option Gesture) : Gesture :=
  match v with Some g => g | None => rock end.

Definition asNumber (v : option Q) : Q :=
  match v with Some q => q | None => 0%Q end.

(** STEP 7 *)
Definition maxIndex (probabilities : list Q) : Z :=
  indexOf probabilities (Math_max probabilities).

Definition pickGesture (probabilities : list Q) : PredictionResult :=
  mkPrediction (asGesture (at_index CLASSES (maxIndex probabilities)))
               (asNumber (at_index probabilities (maxIndex probabilities))).

(** STEP 1 to STEP 3: the frame on the canvas and the rectangle read. *)
Definition captureRegion (s : State) (video : Video) : Completion ImageData.t :=
  let '(sx, sy, sw, sh) := cropRegion s (videoWidth video) (videoHeight video) in
  getImageData (mkBitmap (videoWidth video) (videoHeight video) (frame video))
               sx sy sw sh.

(** The async function [predictGesture], called in the render whose state
    is [s].  It gives the state updates that [onResults] makes while the
    frame is sent, and how the promise settles: [Normal None] is [null].
    Everything it reads ([model], [hands], [handDetected],
    [handBoundingBox]) is the value of that render: the updates of
    [onResults] reach the next render only. *)
Definition predictGesture (s : State) (env : Browser)
  : (State -> State) * Completion (option PredictionResult) :=
  match model s, videoRef env, canvasRef env with
  | Some m, Some video, Some canvas =>
      if negb (context2d canvas) then (fun st => st, Normal None)
      else
        let sent :=
          if hands s
          then do results <- handsSend env; Normal (onResults results)
          else Normal (fun st => st) in
        match sent with
        | Abrupt e => (fun st => st, Abrupt e)
        | Normal updates =>
            (updates,
             do processedImageData <- captureRegion s video;
             do finalImageData <- resize16 env processedImageData;
             do probabilities <- m (toTensor finalImageData);
             Normal (Some (pickGesture (dataSync probabilities))))
        end
  | _, _, _ => (fun st => st, Normal None)
  end.

(** ** playRound *)

(** [CLASSES[Math.floor(Math.random() * CLASSES.length)] as Gesture]; the
    product is the exact one, the code's is rounded to a double. *)
Definition computerGesture (r : Random) : Gesture :=
  asGesture (at_index CLASSES
               (Qfloor (randomValue r
                        * inject_Z (Z.of_nat (List.length CLASSES))))).

(** The part of [playRound] before the [await]: the guard, then
    [setIsPlaying(true)] and [setGameResult(null)].  [None]: the guard
    returned at once and no round began. *)
Definition playRound_begin (s : State) : option State :=
  if negb (isCameraActive s) || isPlaying s then None
  else Some (setGameResult None (setIsPlaying true s)).

(** The part of [playRound] from the [await] on: the [try] block with its
    [catch] and [finally].  [render] is the state of the render in which
    [playRound] was called, [s1] the state the updates apply to. *)
Definition playRound_settle (render : State) (env : Browser) (s1 : State) : State :=
  let (updates, settled) := predictGesture render env in
  let s2 := updates s1 in
  match settled with
  | Normal None =>
      (* [setIsPlaying(false); return], then [finally] *)
      setIsPlaying false (setIsPlaying false s2)
  | Normal (Some playerResult) =>
      let s3 := setCurrentPrediction (Some playerResult) s2 in
      let computerGesture := computerGesture (Math_random env) in
      let s4 := setComputerChoice (Some computerGesture) s3 in
      let result := determineWinner (gesture playerResult) computerGesture in
      let s5 := setGameResult (Some result) s4 in
      let s6 := setScore (updateScore result) s5 in
      setIsPlaying false s6
  | Abrupt _ =>
      (* [catch]: only logs; then [finally] *)
      setIsPlaying false s2
  end.

(** One whole call of [playRound], from the guard to the [finally]. *)
Definition playRound (s : State) (env : Browser) : State :=
  match playRound_begin s with
  | None => s
  | Some s1 => playRound_settle s env s1
  end.

(** Whether the round called in [render] and settling in [env] reaches
    STEP 2 to STEP 4, that is, reports an outcome. *)
Definition resolves (render : State) (env : Browser) : bool :=
  match snd (predictGesture render env) with
  | Normal (Some _) => true
  | _ => false
  end.

(** ** A session: the component over time *)

(** What happens to the mounted component.  In a session a render is
    committed after every event, so that a trigger runs the callback of a
    render that holds the state as it is: the interval is set anew by the
    effect whenever [isPlaying] or [playRound] change.  Calls that reach the
    callback of an earlier render are the matter of [Component] below. *)
Inductive Trigger : Type :=
| TimerTick                      (* the callback of [setInterval] *)
| RoundRequest.                  (* a direct call of [playRound] *)

Inductive Event : Type :=
| ModelLoaded (m : Classifier)   (* loadModel: [setModel] *)
| HandsReady                     (* initializeHandDetection: [setHands] *)
| StartCamera                    (* [setIsCameraActive(true)] *)
| StopCamera                     (* [setIsCameraActive(false)] *)
| RoundTrigger (t : Trigger)     (* something asks for a round *)
| RoundSettles (env : Browser).  (* the awaited [predictGesture] settles *)

(** The state of the component with the bookkeeping of the rounds:
    [inFlight] holds, for each round that began and has not settled, the
    state of the render that called it; [started] counts the rounds that
    passed the guard and [resolved] those that reported an outcome. *)
Record Session : Type := mkSession {
  app : State;
  inFlight : list State;
  started : Z;
  resolved : Z
}.

Definition withApp (f : State -> State) (ss : Session) : Session :=
  mkSession (f (app ss)) (inFlight ss) (started ss) (resolved ss).

(** A call of [playRound] up to its [await], in a session: the callback is
    the one of a render that holds the state [app ss] ([callRendered]
    below is the call through any render). *)
Definition callPlayRound (ss : Session) : Session :=
  match playRound_begin (app ss) with
  | None => ss
  | Some s1 => mkSession s1 (inFlight ss ++ [app ss]) (started ss + 1) (resolved ss)
  end.

Definition step (ss : Session) (ev : Event) : Session :=
  match ev with
  | ModelLoaded m => withApp (setModel (Some m)) ss
  | HandsReady => withApp (setHands true) ss
  | StartCamera => withApp (setIsCameraActive true) ss
  | StopCamera => withApp (setIsCameraActive false) ss
  | RoundTrigger TimerTick =>
      (* the interval exists while [isCameraActive]; its callback is
         [if (!isPlaying) playRound()] *)
      if isCameraActive (app ss)
      then if negb (isPlaying (app ss)) then callPlayRound ss else ss
      else ss
  | RoundTrigger RoundRequest => callPlayRound ss
  | RoundSettles env =>
      match inFlight ss with
      | [] => ss
      | render :: others =>
          mkSession (playRound_settle render env (app ss)) others (started ss)
                    (resolved ss + (if resolves render env then 1 else 0))
      end
  end.

Definition run (events : list Event) (ss : Session) : Session :=
  fold_left step events ss.

Definition initialSession : Session := mkSession initialState [] 0 0.

(** ** The score line of the log *)

(** [a === b] on two outcomes. *)
Definition Outcome_eqb (a b : Outcome) : bool :=
  match a, b with
  | win, win | lose, lose | tie, tie => true
  | _, _ => false
  end.

(** The three numbers that STEP 5 of [playRound] prints: they are computed
    from [score] as the render that called [playRound] holds it, not from
    the state. *)
Definition loggedScore (render : State) (result : Outcome) : Score :=
  mkScore (player (score render) + (if Outcome_eqb result win then 1 else 0))
          (computer (score render) + (if Outcome_eqb result lose then 1 else 0))
          (ties (score render) + (if Outcome_eqb result tie then 1 else 0)).

(** ** drawHandSkeleton *)

(** The overlay canvas: its size and whether [getContext('2d')] gives a
    context. *)
Record Overlay : Type :=
  mkOverlay { overlayWidth : Z; overlayHeight : Z; overlayContext : bool }.

(** What is drawn on the overlay: the rectangle cleared, a line from one
    keypoint to another, the disc of a keypoint. *)
Inductive DrawOp : Type :=
| ClearRect (w h : Z)
| Stroke (x1 y1 x2 y2 : Q)
| Arc (cx cy : Q).

Definition HAND_CONNECTIONS : list (nat * nat) :=
  [(0, 1); (1, 2); (2, 3); (3, 4);
   (0, 5); (5, 6); (6, 7); (7, 8);
   (0, 9); (9, 10); (10, 11); (11, 12);
   (0, 13); (13, 14); (14, 15); (15, 16);
   (0, 17); (17, 18); (18, 19); (19, 20);
   (5, 9); (9, 13); (13, 17)]%nat.

(** The body of the loop over the connections: a line when both keypoints
    exist. *)
Definition drawConnection (videoWidth videoHeight : Z)
                          (landmarks : list Landmark.t) (c : nat * nat)
  : list DrawOp :=
  match nth_error landmarks (fst c), nth_error landmarks (snd c) with
  | Some startPoint, Some endPoint =>
      [Stroke (Landmark.x startPoint * inject_Z videoWidth)
              (Landmark.y startPoint * inject_Z videoHeight)
              (Landmark.x endPoint * inject_Z videoWidth)
              (Landmark.y endPoint * inject_Z videoHeight)]
  | _, _ => []
  end.

(** The body of the loop over the keypoints. *)
Definition drawKeypoint (videoWidth videoHeight : Z) (landmark : Landmark.t)
  : DrawOp :=
  Arc (Landmark.x landmark * inject_Z videoWidth)
      (Landmark.y landmark * inject_Z videoHeight).

(** [drawHandSkeleton(landmarks)]: the overlay after the call and what was
    drawn, or [None] when the overlay or its context is missing and the
    function returns at once. *)
Definition drawHandSkeleton (overlay : option Overlay) (video : option Video)
                            (landmarks : list Landmark.t)
  : option (Overlay * list DrawOp) :=
  match overlay with
  | None => None
  | Some overlay =>
      if negb (overlayContext overlay) then None
      else
        let cleared := ClearRect (overlayWidth overlay) (overlayHeight overlay) in
        let overlay' :=
          match video with
          | Some video =>
              mkOverlay (videoWidth video) (videoHeight video)
                        (overlayContext overlay)
          | None => overlay
          end in
        match landmarks with
        | [] => Some (overlay', [cleared])
        | _ :: _ =>
            let videoWidth := overlayWidth overlay' in
            let videoHeight := overlayHeight overlay' in
            Some (overlay',
                  cleared
                    :: flat_map (drawConnection videoWidth videoHeight landmarks)
                                HAND_CONNECTIONS
                    ++ map (drawKeypoint videoWidth videoHeight) landmarks)
        end
  end.

(** ** The page: loading screen, camera buttons *)

(** The stream of the camera: whether its tracks are live. *)
Record MediaStream : Type := mkStream { live : bool }.

(** The session with what the page adds: [isModelLoading], which decides
    whether the loading screen or the game is rendered, and the stream set
    on the video element. *)
Record Page : Type := mkPage {
  session : Session;
  isModelLoading : bool;
  srcObject : option MediaStream
}.

Definition withSession (f : Session -> Session) (pg : Page) : Page :=
  mkPage (f (session pg)) (isModelLoading pg) (srcObject pg).

(** The video element is rendered, and [videoRef.current] set, once the
    loading screen is gone. *)
Definition videoMounted (pg : Page) : bool := negb (isModelLoading pg).

(** [loadModel]: the model of the file, or the demo model when loading
    throws; [isModelLoading] is cleared after either.  When the demo
    model cannot be built either the function throws and nothing is set. *)
Definition loadModel (loaded demo : Completion Classifier) (pg : Page) : Page :=
  match loaded with
  | Normal loadedModel =>
      mkPage (withApp (setModel (Some loadedModel)) (session pg)) false
             (srcObject pg)
  | Abrupt _ =>
      match demo with
      | Normal demoModel =>
          mkPage (withApp (setModel (Some demoModel)) (session pg)) false
                 (srcObject pg)
      | Abrupt _ => pg
      end
  end.

(** [startCamera]: [getUserMedia] gives a stream or throws (then the
    function only alerts). *)
Definition startCamera (getUserMedia : Completion MediaStream) (pg : Page)
  : Page :=
  match getUserMedia with
  | Normal stream =>
      if videoMounted pg
      then mkPage (withApp (setIsCameraActive true) (session pg))
                  (isModelLoading pg) (Some stream)
      else pg
  | Abrupt _ => pg
  end.

(** [stopCamera]: the tracks of the stream are stopped. *)
Definition stopCamera (pg : Page) : Page :=
  match videoMounted pg, srcObject pg with
  | true, Some _ =>
      mkPage (withApp (setIsCameraActive false) (session pg))
             (isModelLoading pg) (Some (mkStream false))
  | _, _ => pg
  end.

(** What happens to the page.  A click is possible on a button that is
    rendered: none on the loading screen, then "Start Camera" while the
    camera is off and "Stop Camera" while it is on. *)
Inductive PageEvent : Type :=
| LoadModelSettles (loaded demo : Completion Classifier)
| HandsInitialized
| ClickStartCamera (getUserMedia : Completion MediaStream)
| ClickStopCamera
| PageTrigger (t : Trigger)
| PageRoundSettles (env : Browser).

Definition pageStep (pg : Page) (ev : PageEvent) : Page :=
  match ev with
  | LoadModelSettles loaded demo => loadModel loaded demo pg
  | HandsInitialized => withSession (withApp (setHands true)) pg
  | ClickStartCamera getUserMedia =>
      if negb (isModelLoading pg) && negb (isCameraActive (app (session pg)))
      then startCamera getUserMedia pg
      else pg
  | ClickStopCamera =>
      if negb (isModelLoading pg) && isCameraActive (app (session pg))
      then stopCamera pg
      else pg
  | PageTrigger t => withSession (fun ss => step ss (RoundTrigger t)) pg
  | PageRoundSettles env => withSession (fun ss => step ss (RoundSettles env)) pg
  end.

Definition pageRun (events : list PageEvent) (pg : Page) : Page :=
  fold_left pageStep events pg.

(** The page as mounted: the loading screen, no stream. *)
Definition initialPage : Page := mkPage initialSession true None.

(** The input shape of the demo model that [loadModel] builds when no
    model file is found. *)
Definition demoInputShape : list Z := [16; 16; 3].

(** ** Renders and the callbacks they make *)

(** The part of [playRound] before the [await], for the callback made by
    the render whose state is [render], called while the state is [s].
    [isCameraActive] and [isPlaying] in the guard are the values captured
    by [useCallback] in that render; the setters act on the state.
    [None]: the guard returned at once. *)
Definition playRound_call (render s : State) : option State :=
  if negb (isCameraActive render) || isPlaying render then None
  else Some (setGameResult None (setIsPlaying true s)).

(** The component between two renders: [current] is the state as the
    setters have left it, [rendered] the state of the last render that was
    committed.  The interval and any other caller hold the callbacks of
    that render until the next one is committed.  [pending] holds, for
    each round that began and has not settled, the state of the render
    whose [playRound] was called; [begun] counts the rounds that passed
    the guard and [reported] those that reported an outcome. *)
Record Component : Type := mkComponent {
  current : State;
  rendered : State;
  pending : list State;
  begun : Z;
  reported : Z
}.

Inductive Happening : Type :=
| Rerender                          (* React commits a render of [current];
                                       the effect sets the interval anew *)
| SetsModel (m : Classifier)        (* loadModel: [setModel] *)
| SetsHands                         (* initializeHandDetection: [setHands] *)
| SetsCameraActive (v : bool)       (* startCamera, stopCamera *)
| Calls (t : Trigger)               (* the interval ticks, or [playRound]
                                       is called *)
| Settles (k : nat) (env : Browser).
                                    (* the [predictGesture] awaited by the
                                       [k]-th round in flight settles *)

Definition withCurrent (f : State -> State) (c : Component) : Component :=
  mkComponent (f (current c)) (rendered c) (pending c) (begun c) (reported c).

(** A call of [playRound] of the last render, up to its [await]. *)
Definition callRendered (c : Component) : Component :=
  match playRound_call (rendered c) (current c) with
  | None => c
  | Some s1 =>
      mkComponent s1 (rendered c) (pending c ++ [rendered c]) (begun c + 1)
                  (reported c)
  end.

(** The list without its entry of index [k]. *)
Definition removeAt {A : Type} (k : nat) (l : list A) : list A :=
  firstn k l ++ skipn (S k) l.

Definition happen (c : Component) (h : Happening) : Component :=
  match h with
  | Rerender =>
      mkComponent (current c) (current c) (pending c) (begun c) (reported c)
  | SetsModel m => withCurrent (setModel (Some m)) c
  | SetsHands => withCurrent (setHands true) c
  | SetsCameraActive v => withCurrent (setIsCameraActive v) c
  | Calls TimerTick =>
      (* the effect of the last render set the interval if its
         [isCameraActive] was true; the callback is
         [if (!isPlaying) playRound()], with the [isPlaying] and the
         [playRound] of that render *)
      if isCameraActive (rendered c)
      then if negb (isPlaying (rendered c)) then callRendered c else c
      else c
  | Calls RoundRequest => callRendered c
  | Settles k env =>
      match nth_error (pending c) k with
      | None => c
      | Some render =>
          mkComponent (playRound_settle render env (current c)) (rendered c)
                      (removeAt k (pending c)) (begun c)
                      (reported c + (if resolves render env then 1 else 0))
      end
  end.

Definition happenAll (happenings : list Happening) (c : Component) : Component :=
  fold_left happen happenings c.

(** The component as mounted. *)
Definition initialComponent : Component :=
  mkComponent initialState initialState [] 0 0.

End App.

(** * The dataset on disk and the scripts' failures *)

(** Whether [p] starts [s], character by character. *)
Fixpoint isPrefix (p s : list Ascii.ascii) : bool :=
  match p, s with
  | [], _ => true
  | a :: p', b :: s' => Ascii.eqb a b && isPrefix p' s'
  | _ :: _, [] => false
  end.

(** [s.endsWith(suffix)] *)
Definition endsWith (s suffix : string) : bool :=
  isPrefix (rev (list_ascii_of_string suffix)) (rev (list_ascii_of_string s)).

(** [file.endsWith(".png")] *)
Definition isPng (file : string) : bool := endsWith file ".png".

(** The path [path.join(DATASET_PATH, className, file)] of a file of the
    dataset: the class folder and the name of the file in it. *)
Record Path : Type := mkPath { folder : string; fileName : string }.

(** The dataset directory as the scripts see it: for the name of a class,
    the listing of its folder ([fs.readdirSync]), or [None] when the folder
    does not exist ([fs.existsSync]). *)
Definition Dataset : Type := string -> option (list string).

(** How a script fails. *)
Inductive ScriptError : Type :=
| FolderNotFound (className : string)  (* "Dataset folder not found" *)
| LibraryError (e : Error)             (* reading or decoding an image *)
| NothingToConcat.                     (* tf.concat on no tensor *)

Inductive Attempt (A : Type) : Type :=
| Success (a : A)
| Failure (e : ScriptError).

Arguments Success {A} a.
Arguments Failure {A} e.

(** [tf.oneHot(label, depth)]: one at the index [label], zero elsewhere. *)
Definition oneHot (label : Z) (depth : nat) : list Z :=
  map (fun k => if Z.of_nat k =? label then 1 else 0) (seq 0 depth).

(** An image of the dataset, as [sharp] decodes and resizes it: [image p w h]
    stands for [sharp(fs.readFileSync(p)).resize(w, h).raw().toBuffer()]. *)
Definition Images : Type := Path -> Z -> Z -> Completion (list byte).

(** * src/rps-model/src/predict.ts *)
Module Predict.

Definition CLASSES : list string :=
  ["rock"%string; "paper"%string; "scissors"%string].

(** [createModel]: the input shape of the first layer. *)
Definition inputShape : list Z := [16; 16; 3].

(** The tensor of [predict].  [image w h] stands for
    [sharp(fs.readFileSync(imagePath)).resize(w, h).raw().toBuffer()]:
    the raw pixels of the file resized by the library, or a failure. *)
Definition preprocess (image : Z -> Z -> Completion (list byte))
  : Completion Tensor.t :=
  do resizedBuffer <- image 16 16;
  do t <- tensor3d resizedBuffer [16; 16; 3];
  Normal (Tensor.expandDims0 (Tensor.div 255 t)).

(** [predict(imagePath)] with the model loaded; [model] gives
    [model.predict(tensor).dataSync()], whatever numbers the model file
    makes it return. *)
Definition predict (model : Tensor.t -> Completion (list Number))
                   (image : Z -> Z -> Completion (list byte))
  : Completion (option string * list Number) :=
  do tensor <- preprocess image;
  do probabilities <- model tensor;
  let predictedClass :=
    at_index CLASSES
      (indexOf_numbers probabilities (Math_max_numbers probabilities)) in
  Normal (predictedClass, probabilities).

(** The search of [predictOnSampleImage]: the first class, in the order
    rock, paper, scissors, whose folder exists and lists a PNG file, with
    the first such file. *)
Fixpoint findSample (ds : Dataset) (classes : list string) : option Path :=
  match classes with
  | [] => None
  | className :: rest =>
      match ds className with
      | Some listing =>
          match filter isPng listing with
          | file :: _ => Some (mkPath className file)
          | [] => findSample ds rest
          end
      | None => findSample ds rest
      end
  end.

(** [predictOnSampleImage]: the sample and its prediction, or [None] when
    it prints that no sample image was found. *)
Definition predictOnSampleImage (model : Tensor.t -> Completion (list Number))
                                (ds : Dataset) (images : Images)
  : Completion (option (Path * (option string * list Number))) :=
  match findSample ds ["rock"%string; "paper"%string; "scissors"%string] with
  | Some sampleImage =>
      do result <- predict model (images sampleImage);
      Normal (Some (sampleImage, result))
  | None => Normal None
  end.

End Predict.

(** * src/rps-model/src/train.ts *)
Module Train.

(** [createModel]: the input shape of the first layer. *)
Definition inputShape : list Z := [64; 64; 3].

(** The body of the loop of [loadImages] for one file: the tensor pushed
    on [images]. *)
Definition loadImage (image : Z -> Z -> Completion (list byte))
  : Completion Tensor.t :=
  do resizedBuffer <- image 64 64;
  do imgTensor <- tensor3d resizedBuffer [64; 64; 3];
  Normal (Tensor.expandDims0 (Tensor.div 255 imgTensor)).

Definition CLASSES : list string :=
  ["rock"%string; "paper"%string; "scissors"%string].

(** The loop over the files of one class folder: files that are not PNG
    are skipped, each other one gives a tensor and the label [i]. *)
Fixpoint loadFiles (images : Images) (className : string) (i : Z)
                   (files : list string) (acc : list Tensor.t * list Z)
  : Attempt (list Tensor.t * list Z) :=
  match files with
  | [] => Success acc
  | file :: rest =>
      if negb (isPng file) then loadFiles images className i rest acc
      else
        match loadImage (images (mkPath className file)) with
        | Abrupt e => Failure (LibraryError e)
        | Normal imgTensor =>
            loadFiles images className i rest
                      (fst acc ++ [imgTensor], snd acc ++ [i])
        end
  end.

(** The loop over the classes, from the class of index [i] on. *)
Fixpoint loadClasses (ds : Dataset) (images : Images) (classes : list string)
                     (i : Z) (acc : list Tensor.t * list Z)
  : Attempt (list Tensor.t * list Z) :=
  match classes with
  | [] => Success acc
  | className :: rest =>
      match ds className with
      | None => Failure (FolderNotFound className)
      | Some files =>
          match loadFiles images className i files acc with
          | Failure e => Failure e
          | Success acc' => loadClasses ds images rest (i + 1) acc'
          end
      end
  end.

(** [tf.concat(images)] along the first axis; tf refuses an empty list. *)
Definition concat (tensors : list Tensor.t) : Attempt Tensor.t :=
  match tensors with
  | [] => Failure NothingToConcat
  | first :: _ =>
      Success
        (Tensor.mk
           (fold_right Z.add 0 (map (fun t => hd 0 (Tensor.shape t)) tensors)
              :: tl (Tensor.shape first))
           (flat_map Tensor.values tensors))
  end.

(** [loadImages]: the tensor [xs] of all images and the one-hot rows [ys]. *)
Definition loadImages (ds : Dataset) (images : Images)
  : Attempt (Tensor.t * list (list Z)) :=
  match loadClasses ds images CLASSES 0 ([], []) with
  | Failure e => Failure e
  | Success (tensors, labels) =>
      match concat tensors with
      | Failure e => Failure e
      | Success xs =>
          Success (xs, map (fun l => oneHot l (List.length CLASSES)) labels)
      end
  end.

End Train.

(** * The second training script (the one that saves to [./model], the
      directory [predict.ts] and [App.tsx] load from) *)
Module FastTrain.

Definition inputShape : list Z := [16; 16; 3].

(** The function mapped over the items by [createDataset]: [xs]. *)
Definition loadImage (image : Z -> Z -> Completion (list byte))
  : Completion Tensor.t :=
  do resizedBuffer <- image 16 16;
  do imgTensor <- tensor3d resizedBuffer [16; 16; 3];
  Normal (Tensor.div 255 imgTensor).

Definition CLASSES : list string :=
  ["rock"%string; "paper"%string; "scissors"%string].

(** An entry of [dataItems]: the path of an image and its numeric label. *)
Record DataItem : Type := mkItem { path : Path; label : Z }.

(** The body of the loop over the files of a folder: a PNG file is pushed
    with the label of its class, another file is skipped. *)
Definition pushFile (className : string) (i : Z) (dataItems : list DataItem)
                    (file : string) : list DataItem :=
  if negb (isPng file) then dataItems
  else dataItems ++ [mkItem (mkPath className file) i].

(** The loop over the classes, from the class of index [i] on; a missing
    folder throws. *)
Fixpoint collect (ds : Dataset) (classes : list string) (i : Z)
                 (dataItems : list DataItem) : Attempt (list DataItem) :=
  match classes with
  | [] => Success dataItems
  | className :: rest =>
      match ds className with
      | None => Failure (FolderNotFound className)
      | Some files =>
          collect ds rest (i + 1) (fold_left (pushFile className i) files dataItems)
      end
  end.

(** [array[k] = v] for an index of the array. *)
Fixpoint update {A : Type} (k : nat) (v : A) (array : list A) : list A :=
  match array, k with
  | [], _ => []
  | _ :: rest, O => v :: rest
  | a :: rest, S k' => a :: update k' v rest
  end.

(** [[array[i], array[j]] = [array[j], array[i]]]; both indices are
    indices of the array wherever [shuffle] swaps (lemma
    [shuffle_index_bounds]). *)
Definition swap {A : Type} (i j : nat) (array : list A) : list A :=
  match nth_error array i, nth_error array j with
  | Some ai, Some aj => update j ai (update i aj array)
  | _, _ => array
  end.

(** The loop of [shuffle] from index [i] down to 1; [random k] is the
    result of the [k]-th call of [Math.random]. *)
Fixpoint shuffle_loop {A : Type} (i k : nat) (random : nat -> App.Random)
                      (array : list A) : list A :=
  match i with
  | O => array
  | S i' =>
      let j := Z.to_nat (Qfloor (App.randomValue (random k)
                                 * inject_Z (Z.of_nat i + 1))) in
      shuffle_loop i' (S k) random (swap i j array)
  end.

Definition shuffle {A : Type} (random : nat -> App.Random) (array : list A)
  : list A :=
  shuffle_loop (List.length array - 1) 0 random array.

(** The part of [loadImages] before the datasets are made: the items are
    collected and shuffled, at most 100 are kept, the first fifth of those
    is for validation and the rest for training.  The result is
    [(trainItems, valItems)]. *)
Definition splitItems (ds : Dataset) (random : nat -> App.Random)
  : Attempt (list DataItem * list DataItem) :=
  match collect ds CLASSES 0 [] with
  | Failure e => Failure e
  | Success dataItems =>
      let shuffled := shuffle random dataItems in
      let subsetSize := Nat.min 100 (List.length shuffled) in
      let subsetItems := firstn subsetSize shuffled in
      let valSplit := (2 # 10)%Q in
      let valSize :=
        Z.to_nat (Qfloor (inject_Z (Z.of_nat (List.length subsetItems))
                          * valSplit)) in
      let valItems := firstn valSize subsetItems in
      let trainItems := skipn valSize subsetItems in
      Success (trainItems, valItems)
  end.

(** The function that [createDataset] maps over the items: the tensor of
    the image and the one-hot label. *)
Definition datasetElement (images : Images) (item : DataItem)
  : Completion (Tensor.t * list Z) :=
  do xs <- loadImage (images (path item));
  Normal (xs, oneHot (label item) (List.length CLASSES)).

End FastTrain.

(** * Concrete inputs

    States and environments on which the functions above are evaluated. *)
Module Examples.
Import App.

(** A classifier that always answers paper with probability 7/10. *)
Definition paperClassifier : Classifier :=
  fun _ => Normal (mkProbabilities (1 # 10) (7 # 10) (2 # 10)).

(** A 320x240 frame of one colour, as [startCamera] asks for. *)
Definition video320 : Video :=
  mkVideo 320 240 (fun _ _ => mkRGBA x10 x20 x30 xff).

(** A video element whose metadata has not loaded: no frame yet. *)
Definition videoNoFrame : Video :=
  mkVideo 0 0 (fun _ _ => transparentBlack).

(** A scaler that picks the nearest source pixel. *)
Definition nearest (img : ImageData.t) (col row : Z) : RGBA :=
  ImageData.pixel img (col * ImageData.width img / 16)
                      (row * ImageData.height img / 16).

(** The browser with the camera running and no hand in the frame. *)
Definition browser320 : Browser :=
  mkBrowser (Some video320) (Some (mkCanvas true)) (Normal []) nearest
            (mkRandom 0 1).

(** The camera is on but the video has no frame yet. *)
Definition browserNoFrame : Browser :=
  mkBrowser (Some videoNoFrame) (Some (mkCanvas true)) (Normal []) nearest
            (mkRandom 1 2).

(** The video element is not mounted. *)
Definition browserNoVideo : Browser :=
  mkBrowser None (Some (mkCanvas true)) (Normal []) nearest (mkRandom 1 2).

(** The component ready to play: model loaded, hands set, camera on. *)
Definition readyState : State :=
  mkState (Some paperClassifier) true None None None initialScore false true
          false None [].

(** The state after one round played from [readyState]: the classifier
    says paper, the computer draws rock, the player wins. *)
Definition stateAfterWin : State := playRound readyState browser320.

(** Keypoints on one vertical line: a hand seen exactly edge-on. *)
Definition verticalHand : list Landmark.t :=
  [Landmark.mk (1 # 2) (1 # 4); Landmark.mk (1 # 2) (1 # 2);
   Landmark.mk (1 # 2) (3 # 4)].

(** The browser when the locator reports [verticalHand] in the frame. *)
Definition browserThinHand : Browser :=
  mkBrowser (Some video320) (Some (mkCanvas true)) (Normal [verticalHand])
            nearest (mkRandom 0 1).

(** The state after a round in which the locator reported [verticalHand]:
    [onResults] stored its box, which has no width. *)
Definition stateThinHand : State := playRound readyState browserThinHand.

(** Keypoints of a hand that reaches the right edge of the frame. *)
Definition openHand : list Landmark.t :=
  [Landmark.mk (1 # 2) (1 # 4); Landmark.mk (3 # 4) (1 # 2);
   Landmark.mk 1 (3 # 4)].

(** A dataset with six PNG files and two other files. *)
Definition smallDataset : Dataset :=
  fun className =>
    if String.eqb className "rock" then
      Some ["r1.png"; "notes.txt"; "r2.png"]%string
    else if String.eqb className "paper" then
      Some ["p1.png"; "p2.png"; "p3.png"]%string
    else if String.eqb className "scissors" then
      Some ["s1.png"; "s1.jpg"]%string
    else None.

(** [Math.random] returning 1/2 at every call. *)
Definition halves (_ : nat) : Random := mkRandom 1 1.

(** The training and validation items of [smallDataset]. *)
Definition smallSplit : list FastTrain.DataItem * list FastTrain.DataItem :=
  match FastTrain.splitItems smallDataset halves with
  | Success split => split
  | Failure _ => ([], [])
  end.

(** The locator reports [openHand] in the frame. *)
Definition browserOpenHand : Browser :=
  mkBrowser (Some video320) (Some (mkCanvas true)) (Normal [openHand])
            nearest (mkRandom 0 1).

(** The state after a round in which the locator reported [openHand]:
    the component holds the box of that hand. *)
Definition stateOpenHand : State := playRound readyState browserOpenHand.

(** The canvas gives no 2D context. *)
Definition browserNoContext : Browser :=
  mkBrowser (Some video320) (Some (mkCanvas false)) (Normal []) nearest
            (mkRandom 0 1).

(** The component just rendered, ready to play, no round in flight. *)
Definition readyComponent : Component :=
  mkComponent readyState readyState [] 0 0.

(** The model is loaded, the camera started, the component rendered; a
    first round is called and ends early for want of a 2D context; the
    component is rendered again. *)
Definition happeningsNoContext : list Happening :=
  [SetsModel paperClassifier; SetsHands; SetsCameraActive true; Rerender;
   Calls TimerTick; Settles 0 browserNoContext; Rerender].

(** The model of the command-line script, answering paper as well. *)
Definition paperModel (_ : Tensor.t) : Completion (list Number) :=
  Normal (map Finite [1 # 10; 7 # 10; 2 # 10]%Q).

(** A model whose weights have blown up: no number comes out for rock. *)
Definition brokenModel (_ : Tensor.t) : Completion (list Number) :=
  Normal [NaN; Finite (1 # 2); Finite (1 # 2)].

(** A raw buffer of 16x16 pixels with three channels. *)
Definition rgbBuffer16 : list byte := repeat x80 768.

(** A raw buffer of 16x16 pixels with four channels (a PNG with alpha). *)
Definition rgbaBuffer16 : list byte := repeat x80 1024.

(** An image file that decodes to three channels at any size. *)
Definition rgbImage (w h : Z) : Completion (list byte) :=
  Normal (repeat x80 (Z.to_nat (w * h * 3))).

(** What train.ts and predict.ts make of [rgbImage]. *)
Definition trainedTensor : Tensor.t :=
  Tensor.expandDims0
    (Tensor.div 255
       (Tensor.mk [64; 64; 3]
          (map (fun b => inject_Z (byteVal b))
               (repeat x80 (Z.to_nat (64 * 64 * 3)))))).

Definition inferredTensor : Tensor.t :=
  Tensor.expandDims0
    (Tensor.div 255
       (Tensor.mk [16; 16; 3]
          (map (fun b => inject_Z (byteVal b)) rgbBuffer16))).

(** What the fast training script makes of it: no batch axis. *)
Definition fastTensor : Tensor.t :=
  Tensor.div 255
    (Tensor.mk [16; 16; 3] (map (fun b => inject_Z (byteVal b)) rgbBuffer16)).

(** A crop of 4x4 transparent pixels, and the canvas [browser320] scales
    it to. *)
Definition crop4 : ImageData.t := ImageData.mk (fun _ _ => transparentBlack) 4 4.

Definition canvas16 : ImageData.t :=
  ImageData.mk
    (fun i j => bitmapAt (mkBitmap 16 16 (nearest crop4)) (0 + i) (0 + j))
    16 16.

(** Every image decodes to three channels. *)
Definition rgbImages : Images := fun _ => rgbImage.

(** A dataset with a single PNG file. *)
Definition tinyDataset : Dataset :=
  fun className =>
    if String.eqb className "rock" then Some ["notes.txt"]%string
    else if String.eqb className "paper" then Some ["p1.png"]%string
    else if String.eqb className "scissors" then Some []
    else None.

(** What [loadImages] of train.ts makes of [tinyDataset]. *)
Definition tinyLoad : Tensor.t * list (list Z) :=
  match Train.loadImages tinyDataset rgbImages with
  | Success loaded => loaded
  | Failure _ => (Tensor.mk [] [], [])
  end.

(** The image file whose 16x16 raw pixels are those of [canvas16]. *)
Definition canvasImage (_ _ : Z) : Completion (list byte) :=
  Normal (rgbOfRgba (ImageData.data canvas16)).

End Examples.

(** * Predicates of the statements *)
Module Pred.
Import App.

(** The fields that [onResults] does not write. *)
Definition sameGame (a b : State) : Prop :=
  score a = score b /\ isPlaying a = isPlaying b /\
  gameResult a = gameResult b /\ currentPrediction a = currentPrediction b /\
  computerChoice a = computerChoice b /\ isCameraActive a = isCameraActive b.

(** The score is in order: no field negative, and the three add up to [n]. *)
Definition scoreCounts (sc : Score) (n : Z) : Prop :=
  0 <= player sc /\ 0 <= computer sc /\ 0 <= ties sc /\
  player sc + computer sc + ties sc = n.

(** Field by field, [a] is at most [b]. *)
Definition scoreLe (a b : Score) : Prop :=
  player a <= player b /\ computer a <= computer b /\ ties a <= ties b.

(** The guard and the bookkeeping of a session agree: [isPlaying] is set
    exactly while one round is in flight, and there is never a second one. *)
Definition guarded (ss : Session) : Prop :=
  (inFlight ss = [] /\ isPlaying (app ss) = false) \/
  (exists render, inFlight ss = [render] /\ isPlaying (app ss) = true).

(** The arg-max index of a vector, as the specification means it: entry
    [i] is the greatest, and the first one that is. *)
Definition is_argmax (probabilities : list Q) (i : nat) : Prop :=
  exists m,
    nth_error probabilities i = Some m /\
    (forall j q, nth_error probabilities j = Some q -> (q <= m)%Q) /\
    (forall j q, (j < i)%nat -> nth_error probabilities j = Some q -> (q < m)%Q).

(** The state as it would be had no hand been reported. *)
Definition withoutHand (s : State) : State :=
  setHandBoundingBox None (setHandDetected false s).

(** A raw 8-bit channel value divided by 255. *)
Definition scaled (b : byte) : Q := (inject_Z (byteVal b) / 255)%Q.

(** The three colour channels of a pixel, scaled. *)
Definition scaledRGB (px : RGBA) : list Q :=
  [scaled (red px); scaled (green px); scaled (blue px)].

(** The pixels of an image, row after row. *)
Definition pixels (img : ImageData.t) : list RGBA :=
  flat_map (fun row =>
              map (fun col => ImageData.pixel img col row)
                  (ImageData.range (ImageData.width img)))
           (ImageData.range (ImageData.height img)).

(** A number of the unit interval. *)
Definition inUnit (v : Q) : Prop := (0 <= v <= 1)%Q.

(** A keypoint inside the frame: both coordinates in [0, 1]. *)
Definition inFrame (landmark : Landmark.t) : Prop :=
  (0 <= Landmark.x landmark <= 1)%Q /\ (0 <= Landmark.y landmark <= 1)%Q.

(** A keypoint inside a box. *)
Definition inBox (box : Box.t) (landmark : Landmark.t) : Prop :=
  (Box.x box <= Landmark.x landmark)%Q /\
  (Landmark.x landmark <= Box.x box + Box.width box)%Q /\
  (Box.y box <= Landmark.y landmark)%Q /\
  (Landmark.y landmark <= Box.y box + Box.height box)%Q.

(** The body of the loop of [landmarkBounds]: the bounds widened to take
    in one more keypoint. *)
Definition widen : Q * Q * Q * Q -> Landmark.t -> Q * Q * Q * Q :=
  fun '(minX, minY, maxX, maxY) landmark =>
    (Qmin minX (Landmark.x landmark), Qmin minY (Landmark.y landmark),
     Qmax maxX (Landmark.x landmark), Qmax maxY (Landmark.y landmark)).

(** Four bounds that hold every keypoint between them. *)
Definition boundsHold (bounds : Q * Q * Q * Q) (landmark : Landmark.t) : Prop :=
  let '(minX, minY, maxX, maxY) := bounds in
  (minX <= Landmark.x landmark <= maxX)%Q /\
  (minY <= Landmark.y landmark <= maxY)%Q.

(** Four bounds inside the unit square. *)
Definition boundsInFrame (bounds : Q * Q * Q * Q) : Prop :=
  let '(minX, minY, maxX, maxY) := bounds in
  (0 <= minX)%Q /\ (0 <= minY)%Q /\ (maxX <= 1)%Q /\ (maxY <= 1)%Q.

(** The hand held by the component hangs together: either no hand, no box
    and no keypoints, or a hand with the padded box of the keypoints held. *)
Definition handConsistent (s : State) : Prop :=
  (handDetected s = false /\ handBoundingBox s = None /\ handLandmarks s = []) \/
  (handDetected s = true /\
   handBoundingBox s = Some (boundingBox (handLandmarks s))).

(** The result on display is the one of the two gestures on display. *)
Definition resultConsistent (s : State) : Prop :=
  forall result,
    gameResult s = Some result ->
    exists playerResult computerGesture,
      currentPrediction s = Some playerResult /\
      computerChoice s = Some computerGesture /\
      result = determineWinner (gesture playerResult) computerGesture.

(** The items that the PNG files of one class folder give, in the order
    of the listing, with the label of the class. *)
Definition pngItems (className : string) (i : Z) (files : list string)
  : list FastTrain.DataItem :=
  map (fun file => FastTrain.mkItem (mkPath className file) i)
      (filter isPng files).

(** A tensor as train.ts makes it of one image: a batch of one 64x64 image
    of three channels, every entry in [0, 1]. *)
Definition imageTensor64 (t : Tensor.t) : Prop :=
  Tensor.shape t = [1; 64; 64; 3] /\
  Z.of_nat (List.length (Tensor.values t)) = 64 * 64 * 3 /\
  Forall inUnit (Tensor.values t).

(** The number of PNG files of a listing. *)
Definition pngCount (files : list string) : nat :=
  List.length (filter isPng files).

(** A class folder that gives no sample: it is missing, or lists no PNG
    file. *)
Definition noSample (ds : Dataset) (className : string) : Prop :=
  match ds className with
  | Some listing => filter isPng listing = []
  | None => True
  end.

(** A drawing operation that stays on an overlay of the given size. *)
Definition onOverlay (w h : Z) (op : DrawOp) : Prop :=
  match op with
  | ClearRect _ _ => True
  | Stroke x1 y1 x2 y2 =>
      (0 <= x1 <= inject_Z w)%Q /\ (0 <= y1 <= inject_Z h)%Q /\
      (0 <= x2 <= inject_Z w)%Q /\ (0 <= y2 <= inject_Z h)%Q
  | Arc cx cy => (0 <= cx <= inject_Z w)%Q /\ (0 <= cy <= inject_Z h)%Q
  end.

Definition isStroke (op : DrawOp) : bool :=
  match op with Stroke _ _ _ _ => true | _ => false end.

Definition isArc (op : DrawOp) : bool :=
  match op with Arc _ _ => true | _ => false end.

(** What holds of the page at all times: the game is rendered only with a
    model set, the camera is on only on the rendered game and with a
    stream, and every round in flight was called with a model. *)
Definition pageInvariant (pg : Page) : Prop :=
  (isModelLoading pg = false -> model (app (session pg)) <> None) /\
  (isCameraActive (app (session pg)) = true ->
   isModelLoading pg = false /\ srcObject pg <> None) /\
  Forall (fun render => model render <> None) (inFlight (session pg)).

(** The greater of two numbers, the later one when they are equal: the
    running maximum of [Math_max] once it has seen an entry. *)
Definition pick (m x : Q) : Q := if Qle_bool m x then x else m.

(** The session seen as a component that has just been rendered. *)
Definition justRendered (ss : Session) : Component :=
  mkComponent (app ss) (app ss) (inFlight ss) (started ss) (resolved ss).

(** The happening of the component that an event of the session stands
    for; a round that settles is the oldest one in flight. *)
Definition happeningOf (ev : Event) : Happening :=
  match ev with
  | ModelLoaded m => SetsModel m
  | HandsReady => SetsHands
  | StartCamera => SetsCameraActive true
  | StopCamera => SetsCameraActive false
  | RoundTrigger t => Calls t
  | RoundSettles env => Settles 0 env
  end.


(** What [predictGesture] needs of the browser to go past its first two
    tests: the video element, the canvas and its 2D context. *)
Definition available (env : Browser) : bool :=
  match videoRef env, canvasRef env with
  | Some _, Some canvas => context2d canvas
  | _, _ => false
  end.

(** The environments in which the rounds of a run settled, in order. *)
Definition settledIn (happenings : list Happening) : list Browser :=
  flat_map (fun h => match h with Settles _ env => [env] | _ => [] end)
           happenings.

(** Nothing that [predictGesture] needs goes away: what an earlier round
    of the run found available, [env] has as well.  (The video and the
    canvas stay rendered once the loading screen is gone, and
    [getContext] returns the context it returned before.) *)
Definition nothingLost (happenings : list Happening) (env : Browser) : Prop :=
  Forall (fun earlier => available earlier = true -> available env = true)
         (settledIn happenings).

(** What holds of the component at all times: a result on display was
    reported by a round that found everything available and whose render
    had a model; a model that a render had is still there. *)
Definition componentInvariant (happenings : list Happening) (c : Component)
  : Prop :=
  (gameResult (current c) <> None ->
   model (rendered c) <> None /\
   Exists (fun env => available env = true) (settledIn happenings)) /\
  (forall render, In render (pending c) -> model render <> None ->
                  model (rendered c) <> None) /\
  (model (rendered c) <> None -> model (current c) <> None).

(** The rectangle of STEP 3 has no width or no height: the box held by the
    render has a zero width or height or the frame a zero dimension, or,
    with no box held, the smaller dimension of the frame is zero. *)
Definition zeroSize (s : State) (video : Video) : Prop :=
  match handDetected s, handBoundingBox s with
  | true, Some box =>
      (Box.width box == 0)%Q \/ (Box.height box == 0)%Q \/
      videoWidth video = 0 \/ videoHeight video = 0
  | _, _ => Z.min (videoWidth video) (videoHeight video) = 0
  end.

(** The rectangle of whole pixels that [getImageData] reads for the
    numbers it is given. *)
Definition pixelRegion (region : Q * Q * Q * Q) : Z * Z * Z * Z :=
  let '(sx, sy, sw, sh) := region in
  (toLong sx, toLong sy, toLong sw, toLong sh).

(** The margin left on either side of a third in the statement on the
    computer's draw: rounding of the product in [Math.random() * 3] moves
    the thresholds by far less. *)
Definition margin : Q := 1 # 1000000000.

End Pred.

(** * Properties *)

Import App.
Import Pred.

(** ** The outcome resolver *)

Lemma Gesture_eqb_eq : forall a b, Gesture_eqb a b = true <-> a = b.
Proof. intros [] []; simpl; split; congruence. Qed.

(** C1: for every pair of gestures, [determineWinner] gives [tie] exactly
    when the two are equal, [win] exactly on (rock, scissors),
    (paper, rock) and (scissors, paper), [lose] on the three other pairs,
    and agrees with the rule table of the specification. *)
Theorem determineWinner_rules : forall player computer : Gesture,
  (determineWinner player computer = tie <-> player = computer) /\
  (determineWinner player computer = win <->
     In (player, computer) [(rock, scissors); (paper, rock); (scissors, paper)]) /\
  (determineWinner player computer = lose <->
     In (player, computer) [(rock, paper); (paper, scissors); (scissors, rock)]) /\
  determineWinner player computer = rule_table player computer.
Proof.
  intros [] []; cbv [determineWinner Gesture_eqb wins rule_table In];
    repeat split; try reflexivity; intros H; intuition congruence.
Qed.

(** ** What a round changes *)

Lemma predictGesture_updates : forall s env,
  fst (predictGesture s env) = (fun st => st) \/
  exists results, fst (predictGesture s env) = onResults results.
Proof.
  intros s env. unfold predictGesture.
  destruct (model s); [| now left].
  destruct (videoRef env); [| now left].
  destruct (canvasRef env) as [canvas |]; [| now left].
  destruct (context2d canvas); simpl; [| now left].
  destruct (hands s); simpl; [| now left].
  destruct (handsSend env) as [results | e]; simpl; [right; eauto | now left].
Qed.

Lemma onResults_sameGame : forall results st, sameGame (onResults results st) st.
Proof. intros [| l ?] st; repeat split. Qed.

Lemma updates_sameGame : forall s env st,
  sameGame (fst (predictGesture s env) st) st.
Proof.
  intros s env st.
  destruct (predictGesture_updates s env) as [-> | [results ->]].
  - repeat split.
  - apply onResults_sameGame.
Qed.

(** The state after the [try] block, by the way [predictGesture] settled. *)
Lemma playRound_settle_cases : forall render env s1,
  let s' := playRound_settle render env s1 in
  isPlaying s' = false /\
  isCameraActive s' = isCameraActive s1 /\
  match snd (predictGesture render env) with
  | Normal (Some playerResult) =>
      let computerGesture := computerGesture (Math_random env) in
      let result := determineWinner (gesture playerResult) computerGesture in
      gameResult s' = Some result /\
      score s' = updateScore result (score s1) /\
      currentPrediction s' = Some playerResult /\
      computerChoice s' = Some computerGesture
  | _ =>
      score s' = score s1 /\ gameResult s' = gameResult s1 /\
      currentPrediction s' = currentPrediction s1 /\
      computerChoice s' = computerChoice s1
  end.
Proof.
  intros render env s1 s'. subst s'. unfold playRound_settle.
  pose proof (updates_sameGame render env s1) as Hsame.
  destruct (predictGesture render env) as [updates settled]. simpl in *.
  destruct Hsame as (Hscore & _ & Hresult & Hpred & Hchoice & Hcam).
  destruct settled as [[playerResult |] | e]; simpl; rewrite ?Hscore; auto 10.
Qed.

(** ** The score *)

Lemma updateScore_fields : forall result prev,
  match result with
  | win =>
      player (updateScore result prev) = player prev + 1 /\
      computer (updateScore result prev) = computer prev /\
      ties (updateScore result prev) = ties prev
  | lose =>
      player (updateScore result prev) = player prev /\
      computer (updateScore result prev) = computer prev + 1 /\
      ties (updateScore result prev) = ties prev
  | tie =>
      player (updateScore result prev) = player prev /\
      computer (updateScore result prev) = computer prev /\
      ties (updateScore result prev) = ties prev + 1
  end.
Proof. intros [] prev; cbn; auto. Qed.

Lemma updateScore_counts : forall result sc n,
  scoreCounts sc n -> scoreCounts (updateScore result sc) (n + 1).
Proof. intros [] sc n (? & ? & ? & ?); unfold scoreCounts; cbn; lia. Qed.

Lemma updateScore_le : forall result sc, scoreLe sc (updateScore result sc).
Proof. intros [] sc; unfold scoreLe; cbn; lia. Qed.

Lemma settle_score : forall render env s1,
  score (playRound_settle render env s1) =
  if resolves render env
  then updateScore
         (determineWinner
            (match snd (predictGesture render env) with
             | Normal (Some playerResult) => gesture playerResult
             | _ => rock
             end)
            (computerGesture (Math_random env)))
         (score s1)
  else score s1.
Proof.
  intros render env s1.
  pose proof (playRound_settle_cases render env s1) as (_ & _ & H).
  unfold resolves.
  destruct (snd (predictGesture render env)) as [[playerResult |] | e];
    cbv zeta in H; intuition.
Qed.

Lemma callPlayRound_score : forall ss,
  score (app (callPlayRound ss)) = score (app ss) /\
  resolved (callPlayRound ss) = resolved ss.
Proof.
  intros ss. unfold callPlayRound, playRound_begin.
  destruct (negb (isCameraActive (app ss)) || isPlaying (app ss)); auto.
Qed.

(** A step of the session either leaves the score and the count of resolved
    rounds alone, or counts one more resolved round and applies
    [updateScore] once. *)
Lemma step_score : forall ss ev,
  (score (app (step ss ev)) = score (app ss) /\
   resolved (step ss ev) = resolved ss) \/
  (exists result,
     score (app (step ss ev)) = updateScore result (score (app ss)) /\
     resolved (step ss ev) = resolved ss + 1).
Proof.
  intros ss ev. destruct ev as [m | | | | [|] | env]; simpl; auto.
  - destruct (isCameraActive (app ss)); auto.
    destruct (negb (isPlaying (app ss))); auto.
    left. apply callPlayRound_score.
  - left. apply callPlayRound_score.
  - destruct (inFlight ss) as [| render others]; auto. simpl.
    rewrite settle_score.
    destruct (resolves render env); [right; eexists; split; eauto | left; split; auto; lia].
Qed.

Lemma run_app : forall events ev ss, run (events ++ [ev]) ss = step (run events ss) ev.
Proof. intros. unfold run. rewrite fold_left_app. reflexivity. Qed.

(** C2: a resolved round applies [updateScore] once, which adds one to the
    field of the outcome (player on win, computer on lose, ties on tie) and
    keeps the two others; a round that does not resolve keeps the score.
    Hence over any run of the session from its start no field is negative,
    the three fields add up to the number of resolved rounds, and no step
    makes a field smaller. *)
Theorem score_counts_resolved_rounds :
  (forall result prev,
     getKey (scoreKey result) (updateScore result prev)
       = getKey (scoreKey result) prev + 1 /\
     forall k, k <> scoreKey result ->
       getKey k (updateScore result prev) = getKey k prev) /\
  (scoreKey win = key_player /\ scoreKey lose = key_computer /\
   scoreKey tie = key_ties) /\
  (forall render env s1,
     match snd (predictGesture render env) with
     | Normal (Some playerResult) =>
         exists result,
           gameResult (playRound_settle render env s1) = Some result /\
           score (playRound_settle render env s1) = updateScore result (score s1)
     | _ => score (playRound_settle render env s1) = score s1
     end) /\
  (forall events,
     scoreCounts (score (app (run events initialSession)))
                 (resolved (run events initialSession))) /\
  (forall ss ev, scoreLe (score (app ss)) (score (app (step ss ev)))).
Proof.
  split; [| split; [| split; [| split]]].
  - intros [] prev; split; try reflexivity; intros [] Hk; cbn in *; congruence.
  - auto.
  - intros render env s1.
    pose proof (playRound_settle_cases render env s1) as (_ & _ & H).
    destruct (snd (predictGesture render env)) as [[playerResult |] | e];
      cbv zeta in H; try tauto.
    eexists; split; apply H.
  - intros events. induction events as [| ev events IH] using rev_ind.
    + cbn. unfold scoreCounts. cbn. lia.
    + rewrite run_app.
      destruct (step_score (run events initialSession) ev)
        as [[-> ->] | (result & -> & ->)]; auto using updateScore_counts.
  - intros ss ev.
    destruct (step_score ss ev) as [[-> _] | (result & -> & _)].
    + unfold scoreLe; lia.
    + apply updateScore_le.
Qed.

(** ** Rounds that fail *)

Lemma playRound_begin_Some : forall s,
  isCameraActive s = true -> isPlaying s = false ->
  playRound_begin s = Some (setGameResult None (setIsPlaying true s)).
Proof. intros s Hcam Hplay. unfold playRound_begin. now rewrite Hcam, Hplay. Qed.

Lemma playRound_begin_None : forall s,
  isCameraActive s = false \/ isPlaying s = true -> playRound_begin s = None.
Proof.
  intros s [H | H]; unfold playRound_begin; rewrite H; simpl; auto.
  now rewrite orb_true_r.
Qed.

(** A trigger and the settling of its round, in a session with no round in
    flight, make up one call of [playRound]. *)
Lemma session_round : forall ss t env,
  inFlight ss = [] -> isCameraActive (app ss) = true ->
  isPlaying (app ss) = false ->
  step (step ss (RoundTrigger t)) (RoundSettles env) =
  mkSession (playRound (app ss) env) [] (started ss + 1)
            (resolved ss + (if resolves (app ss) env then 1 else 0)).
Proof.
  intros ss t env Hfl Hcam Hplay.
  assert (Hcall : step ss (RoundTrigger t) = callPlayRound ss).
  { destruct t; simpl; auto. now rewrite Hcam, Hplay. }
  rewrite Hcall. unfold callPlayRound, playRound.
  rewrite (playRound_begin_Some _ Hcam Hplay), Hfl. reflexivity.
Qed.

(** C3: when the prediction of a round gives no result ([null]) or throws,
    the round ends with the score as it was, [isPlaying] false again, no
    round in flight, no outcome on display ([gameResult] is [null]) and no
    resolved round counted. *)
Theorem failed_round_aborts : forall ss t env,
  inFlight ss = [] ->
  isCameraActive (app ss) = true ->
  isPlaying (app ss) = false ->
  (snd (predictGesture (app ss) env) = Normal None \/
   exists e, snd (predictGesture (app ss) env) = Abrupt e) ->
  let ss' := step (step ss (RoundTrigger t)) (RoundSettles env) in
  app ss' = playRound (app ss) env /\
  score (app ss') = score (app ss) /\
  isPlaying (app ss') = false /\
  inFlight ss' = [] /\
  gameResult (app ss') = None /\
  resolved ss' = resolved ss /\
  currentPrediction (app ss') = currentPrediction (app ss) /\
  computerChoice (app ss') = computerChoice (app ss).
Proof.
  intros ss t env Hfl Hcam Hplay Hfail ss'. subst ss'.
  rewrite (session_round ss t env Hfl Hcam Hplay). simpl.
  unfold playRound. rewrite (playRound_begin_Some _ Hcam Hplay).
  pose proof (playRound_settle_cases (app ss) env
                (setGameResult None (setIsPlaying true (app ss))))
    as (Hidle & _ & Hcase).
  assert (Hres : resolves (app ss) env = false).
  { unfold resolves. destruct Hfail as [-> | [e ->]]; reflexivity. }
  rewrite Hres.
  assert (Hkeep :
    let s' := playRound_settle (app ss) env
                (setGameResult None (setIsPlaying true (app ss))) in
    score s' = score (app ss) /\ gameResult s' = None /\
    currentPrediction s' = currentPrediction (app ss) /\
    computerChoice s' = computerChoice (app ss)).
  { destruct Hfail as [Hnull | [e He]];
      [rewrite Hnull in Hcase | rewrite He in Hcase]; exact Hcase. }
  cbv zeta in Hkeep. destruct Hkeep as (? & ? & ? & ?).
  repeat split; auto. lia.
Qed.

(** A round whose frame cannot be read: the video has no frame yet, so that
    [getImageData] throws. *)
Lemma failed_round_aborts_witness :
  let ss := mkSession Examples.readyState [] 0 0 in
  let ss' := step (step ss (RoundTrigger TimerTick))
                  (RoundSettles Examples.browserNoFrame) in
  app ss' = playRound (app ss) Examples.browserNoFrame /\
  score (app ss') = score (app ss) /\
  isPlaying (app ss') = false /\
  inFlight ss' = [] /\
  gameResult (app ss') = None /\
  resolved ss' = resolved ss /\
  currentPrediction (app ss') = currentPrediction (app ss) /\
  computerChoice (app ss') = computerChoice (app ss).
Proof.
  apply (failed_round_aborts (mkSession Examples.readyState [] 0 0) TimerTick
           Examples.browserNoFrame).
  - reflexivity.
  - reflexivity.
  - reflexivity.
  - right. exists IndexSizeError. vm_compute. reflexivity.
Defined.

(** ** Rounds that return early *)

Lemma predictGesture_null : forall s env,
  model s = None \/ videoRef env = None \/ canvasRef env = None \/
  canvasRef env = Some (mkCanvas false) ->
  predictGesture s env = (fun st => st, Normal None).
Proof.
  intros s env H. unfold predictGesture.
  destruct (model s); [| reflexivity].
  destruct (videoRef env); [| reflexivity].
  destruct (canvasRef env) as [[[|]] |]; try reflexivity.
  destruct H as [H | [H | [H | H]]]; discriminate.
Qed.

(** ** The in-flight guard in a session *)

Lemma callPlayRound_cases : forall ss,
  (playRound_begin (app ss) = None /\ callPlayRound ss = ss) \/
  (isCameraActive (app ss) = true /\ isPlaying (app ss) = false /\
   callPlayRound ss =
     mkSession (setGameResult None (setIsPlaying true (app ss)))
               (inFlight ss ++ [app ss]) (started ss + 1) (resolved ss)).
Proof.
  intros ss. unfold callPlayRound, playRound_begin.
  destruct (isCameraActive (app ss)), (isPlaying (app ss)); simpl; auto.
Qed.

Lemma trigger_cases : forall ss t,
  step ss (RoundTrigger t) = ss \/
  (isCameraActive (app ss) = true /\ isPlaying (app ss) = false /\
   step ss (RoundTrigger t) =
     mkSession (setGameResult None (setIsPlaying true (app ss)))
               (inFlight ss ++ [app ss]) (started ss + 1) (resolved ss)).
Proof.
  intros ss [|]; simpl.
  - destruct (isCameraActive (app ss)) eqn:Hcam; auto.
    destruct (isPlaying (app ss)) eqn:Hplay; simpl; auto.
    destruct (callPlayRound_cases ss) as [[_ ->] | (_ & _ & ->)]; auto.
  - destruct (callPlayRound_cases ss) as [[_ ->] | (? & ? & ->)]; auto.
Qed.

Lemma trigger_in_flight : forall ss t,
  isPlaying (app ss) = true -> step ss (RoundTrigger t) = ss.
Proof.
  intros ss t Hplay.
  destruct (trigger_cases ss t) as [H | (_ & H & _)]; congruence.
Qed.

Lemma trigger_idle : forall ss t,
  isCameraActive (app ss) = true -> isPlaying (app ss) = false ->
  step ss (RoundTrigger t) =
    mkSession (setGameResult None (setIsPlaying true (app ss)))
              (inFlight ss ++ [app ss]) (started ss + 1) (resolved ss).
Proof.
  intros ss t Hcam Hplay. destruct t; simpl.
  - rewrite Hcam, Hplay. simpl. unfold callPlayRound.
    now rewrite (playRound_begin_Some _ Hcam Hplay).
  - unfold callPlayRound. now rewrite (playRound_begin_Some _ Hcam Hplay).
Qed.

Lemma trigger_twice : forall ss t1 t2,
  step (step ss (RoundTrigger t1)) (RoundTrigger t2) = step ss (RoundTrigger t1).
Proof.
  intros ss t1 t2.
  destruct (trigger_cases ss t1) as [H1 | (Hcam & Hplay & H1)].
  - rewrite H1.
    destruct (trigger_cases ss t2) as [H2 | (Hcam & Hplay & _)]; [exact H2 |].
    (* the second trigger would start a round: then so did the first *)
    rewrite (trigger_idle ss t1 Hcam Hplay) in H1.
    apply (f_equal started) in H1. simpl in H1. lia.
  - rewrite H1. apply trigger_in_flight. reflexivity.
Qed.

Lemma step_guarded : forall ss ev, guarded ss -> guarded (step ss ev).
Proof.
  intros ss ev Hg. destruct ev as [m | | | | t | env].
  - exact Hg.
  - exact Hg.
  - exact Hg.
  - exact Hg.
  - destruct (trigger_cases ss t) as [-> | (_ & Hplay & ->)]; [exact Hg |].
    destruct Hg as [[Hfl _] | (render & _ & Hbusy)]; [| congruence].
    right. exists (app ss). rewrite Hfl. split; reflexivity.
  - simpl. destruct Hg as [[Hfl Hplay] | (render & Hfl & _)]; rewrite Hfl.
    + left. split; assumption.
    + left. split; [reflexivity |]. simpl.
      apply (playRound_settle_cases render env (app ss)).
Qed.

Lemma run_guarded : forall events, guarded (run events initialSession).
Proof.
  induction events as [| ev events IH] using rev_ind.
  - left. split; reflexivity.
  - rewrite run_app. apply step_guarded, IH.
Qed.

(** In a session, where every trigger runs the callback of a render that
    holds the state as it is, at most one round is in flight, and
    [isPlaying] is set exactly then; a trigger that comes while a round is
    in flight changes nothing; two triggers one after the other do what
    the first alone does. *)
Lemma session_one_round_in_flight : forall events t1 t2 env,
  let ss := run events initialSession in
  let ss2 := step (step ss (RoundTrigger t1)) (RoundTrigger t2) in
  (List.length (inFlight ss) <= 1)%nat /\
  (isPlaying (app ss) = true <-> inFlight ss <> []) /\
  (isPlaying (app ss) = true -> step ss (RoundTrigger t1) = ss) /\
  ss2 = step ss (RoundTrigger t1) /\
  (List.length (inFlight ss2) <= 1)%nat /\
  (isCameraActive (app ss) = true -> isPlaying (app ss) = false ->
   started ss2 = started ss + 1 /\ inFlight ss2 = [app ss] /\
   started (step ss2 (RoundSettles env)) = started ss + 1 /\
   inFlight (step ss2 (RoundSettles env)) = []).
Proof.
  intros events t1 t2 env ss ss2.
  assert (Hg : guarded ss) by apply run_guarded.
  assert (Htwice : ss2 = step ss (RoundTrigger t1)) by apply trigger_twice.
  assert (Hg2 : guarded ss2).
  { rewrite Htwice. apply step_guarded, Hg. }
  assert (Hlen : forall x, guarded x -> (List.length (inFlight x) <= 1)%nat).
  { intros x [[-> _] | (r & -> & _)]; simpl; lia. }
  repeat split; auto using trigger_in_flight.
  - intros Hplay Hfl. destruct Hg as [[_ H] | (r & H & _)]; congruence.
  - intros Hfl. destruct Hg as [[H _] | (r & _ & H)]; congruence.
  - rewrite Htwice, (trigger_idle ss t1); auto.
  - rewrite Htwice, (trigger_idle ss t1); auto. simpl.
    destruct Hg as [[-> _] | (r & _ & Hbusy)]; [reflexivity | congruence].
  - rewrite Htwice, (trigger_idle ss t1); auto. simpl.
    destruct (inFlight ss ++ [app ss]); reflexivity.
  - rewrite Htwice, (trigger_idle ss t1); auto. simpl.
    destruct Hg as [[-> _] | (r & _ & Hbusy)]; [reflexivity | congruence].
Qed.

(** ** The component between two renders *)

Lemma happenAll_app : forall happenings h c,
  happenAll (happenings ++ [h]) c = happen (happenAll happenings c) h.
Proof. intros. unfold happenAll. rewrite fold_left_app. reflexivity. Qed.

Lemma settledIn_app : forall happenings h,
  settledIn (happenings ++ [h]) = settledIn happenings ++ settledIn [h].
Proof. intros. unfold settledIn. apply flat_map_app. Qed.

(** A session is a component in which a render is committed after every
    event: its triggers never run the callback of an earlier render. *)
Lemma session_step_rerendered : forall ss ev,
  happen (happen (justRendered ss) (happeningOf ev)) Rerender
    = justRendered (step ss ev).
Proof.
  intros ss ev. destruct ev as [m | | | | [|] | env]; try reflexivity.
  - cbn [happeningOf happen step justRendered rendered current].
    destruct (isCameraActive (app ss)); [| reflexivity].
    destruct (negb (isPlaying (app ss))); [| reflexivity].
    unfold callRendered, callPlayRound, playRound_call, playRound_begin.
    cbn [rendered current justRendered].
    destruct (negb (isCameraActive (app ss)) || isPlaying (app ss)); reflexivity.
  - cbn [happeningOf happen step].
    unfold callRendered, callPlayRound, playRound_call, playRound_begin.
    cbn [rendered current justRendered].
    destruct (negb (isCameraActive (app ss)) || isPlaying (app ss)); reflexivity.
  - cbn [happeningOf happen step justRendered pending].
    destruct (inFlight ss) as [| render others]; reflexivity.
Qed.

Lemma playRound_call_Some : forall render s,
  isCameraActive render = true -> isPlaying render = false ->
  playRound_call render s = Some (setGameResult None (setIsPlaying true s)).
Proof. intros render s Hcam Hplay. unfold playRound_call. now rewrite Hcam, Hplay. Qed.

(** A call through the last render either is dropped by the guard, which
    reads that render, or begins a round. *)
Lemma calls_cases : forall c t,
  ((isCameraActive (rendered c) = false \/ isPlaying (rendered c) = true) /\
   happen c (Calls t) = c) \/
  (isCameraActive (rendered c) = true /\ isPlaying (rendered c) = false /\
   happen c (Calls t) =
     mkComponent (setGameResult None (setIsPlaying true (current c)))
                 (rendered c) (pending c ++ [rendered c]) (begun c + 1)
                 (reported c)).
Proof.
  intros c t.
  destruct (isCameraActive (rendered c)) eqn:Hcam;
    destruct (isPlaying (rendered c)) eqn:Hplay;
    destruct t; cbn [happen]; unfold callRendered, playRound_call;
    rewrite ?Hcam, ?Hplay; cbn [negb orb]; auto.
Qed.

Lemma calls_started : forall c t,
  isCameraActive (rendered c) = true -> isPlaying (rendered c) = false ->
  happen c (Calls t) =
    mkComponent (setGameResult None (setIsPlaying true (current c)))
                (rendered c) (pending c ++ [rendered c]) (begun c + 1)
                (reported c).
Proof.
  intros c t Hcam Hplay.
  destruct (calls_cases c t) as [[[H | H] _] | (_ & _ & H)];
    [congruence | congruence | exact H].
Qed.

Lemma calls_dropped : forall c t,
  isCameraActive (rendered c) = false \/ isPlaying (rendered c) = true ->
  happen c (Calls t) = c.
Proof.
  intros c t H.
  destruct (calls_cases c t) as [[_ Hc] | (Hcam & Hplay & _)]; [exact Hc |].
  destruct H; congruence.
Qed.



(** [Examples.readyComponent] is the component once the model is loaded,
    the camera started and a render committed. *)
Lemma readyComponent_reached :
  happenAll [SetsModel Examples.paperClassifier; SetsHands;
             SetsCameraActive true; Rerender] initialComponent
    = Examples.readyComponent.
Proof. reflexivity. Qed.


(** The two rounds of that run in numbers: two outcomes are reported and
    the player's score is 2 where one round would have left it at 1. *)
Lemma calls_of_one_render_score :
  let c4 :=
    happenAll [Calls TimerTick; Calls RoundRequest;
               Settles 0 Examples.browser320; Settles 0 Examples.browser320]
              Examples.readyComponent in
  begun c4 = 2 /\ reported c4 = 2 /\ pending c4 = [] /\
  score (current c4) = mkScore 2 0 0 /\
  score (playRound Examples.readyState Examples.browser320) = mkScore 1 0 0.
Proof. repeat split; vm_compute; reflexivity. Qed.

(** Also when rounds overlap, the score counts the outcomes reported:
    over any life of the component no field is negative and the three add
    up to the number of rounds that reported an outcome. *)
Lemma component_score_counts : forall happenings,
  scoreCounts (score (current (happenAll happenings initialComponent)))
              (reported (happenAll happenings initialComponent)).
Proof.
  induction happenings as [| h hs IH] using rev_ind.
  - unfold scoreCounts. cbn. lia.
  - rewrite happenAll_app.
    set (c := happenAll hs initialComponent) in *.
    destruct h as [| m | | v | t | k env]; try exact IH.
    + destruct (calls_cases c t) as [[_ ->] | (_ & _ & ->)]; exact IH.
    + cbn [happen].
      destruct (nth_error (pending c) k) as [render |]; [| exact IH].
      cbn [current reported]. rewrite settle_score.
      destruct (resolves render env).
      * apply updateScore_counts, IH.
      * rewrite Z.add_0_r. exact IH.
Qed.

(** ** Rounds that return early, over the life of the component *)

Lemma settle_model : forall render env s1,
  model (playRound_settle render env s1) = model s1.
Proof.
  intros render env s1. unfold playRound_settle.
  destruct (predictGesture_updates render env) as [Hu | [results Hu]];
    destruct (predictGesture render env) as [updates settled];
    simpl in Hu; subst updates;
    destruct settled as [[playerResult |] | e]; simpl;
    try reflexivity; destruct results; reflexivity.
Qed.

(** A round reports an outcome only if its render had a model and the
    browser gave the video, the canvas and its context. *)
Lemma resolves_available : forall render env,
  resolves render env = true -> model render <> None /\ available env = true.
Proof.
  intros render env. unfold resolves, predictGesture, available.
  destruct (model render); [| discriminate].
  destruct (videoRef env); [| discriminate].
  destruct (canvasRef env) as [canvas |]; [| discriminate].
  destruct (context2d canvas); cbn [negb snd]; [| discriminate].
  intros _. split; [discriminate | reflexivity].
Qed.

Lemma settle_keeps_result : forall render env s1,
  resolves render env = false ->
  gameResult (playRound_settle render env s1) = gameResult s1.
Proof.
  intros render env s1 Hres.
  pose proof (playRound_settle_cases render env s1) as (_ & _ & H).
  unfold resolves in Hres.
  destruct (snd (predictGesture render env)) as [[playerResult |] | e];
    [discriminate | |]; cbv zeta in H; tauto.
Qed.

Lemma removeAt_In : forall (A : Type) k (l : list A) a,
  In a (removeAt k l) -> In a l.
Proof.
  intros A k l a H. unfold removeAt in H.
  rewrite <- (firstn_skipn k l).
  apply in_app_or in H. apply in_or_app.
  destruct H as [H | H]; [left; exact H | right].
  revert l H. induction k as [| k IH]; intros [| x l] H; simpl in *; auto.
Qed.

Lemma happen_invariant : forall happenings c h,
  componentInvariant happenings c ->
  componentInvariant (happenings ++ [h]) (happen c h).
Proof.
  intros hs c h (Hresult & Hpending & Hmodel).
  assert (Hweak : forall P : Browser -> Prop,
            Exists P (settledIn hs) -> Exists P (settledIn (hs ++ [h]))).
  { intros P HP. rewrite settledIn_app. apply Exists_app. now left. }
  assert (Hsame : componentInvariant (hs ++ [h]) c).
  { split; [| split]; auto.
    intros Hr. destruct (Hresult Hr). auto. }
  destruct h as [| m | | v | t | k env].
  - (* a render is committed *)
    split; [| split]; cbn [happen current rendered pending].
    + intros Hr. destruct (Hresult Hr). auto.
    + intros render Hin Hm. apply Hmodel. eapply Hpending; eauto.
    + auto.
  - split; [| split]; cbn [happen withCurrent current rendered pending].
    + intros Hr. destruct (Hresult Hr). auto.
    + exact Hpending.
    + intros _. discriminate.
  - split; [| split]; cbn [happen withCurrent current rendered pending].
    + intros Hr. destruct (Hresult Hr). auto.
    + exact Hpending.
    + exact Hmodel.
  - split; [| split]; cbn [happen withCurrent current rendered pending].
    + intros Hr. destruct (Hresult Hr). auto.
    + exact Hpending.
    + exact Hmodel.
  - destruct (calls_cases c t) as [[_ ->] | (_ & _ & ->)]; [exact Hsame |].
    split; [| split]; cbn [current rendered pending].
    + intros Hr. exfalso. apply Hr. reflexivity.
    + intros render Hin Hm. apply in_app_or in Hin.
      destruct Hin as [Hin | [<- | []]]; [eapply Hpending; eauto | exact Hm].
    + exact Hmodel.
  - cbn [happen].
    destruct (nth_error (pending c) k) as [render |] eqn:Hk; [| exact Hsame].
    apply nth_error_In in Hk.
    split; [| split]; cbn [current rendered pending].
    + intros Hr. destruct (resolves render env) eqn:Hres.
      * destruct (resolves_available render env Hres) as [Hm Hav]. split.
        -- apply (Hpending render Hk Hm).
        -- rewrite settledIn_app. apply Exists_app. right.
           constructor. exact Hav.
      * rewrite (settle_keeps_result render env _ Hres) in Hr.
        destruct (Hresult Hr). auto.
    + intros r Hin Hm. apply removeAt_In in Hin. eapply Hpending; eauto.
    + intros Hm. rewrite settle_model. auto.
Qed.

Lemma happenAll_invariant : forall happenings,
  componentInvariant happenings (happenAll happenings initialComponent).
Proof.
  induction happenings as [| h hs IH] using rev_ind.
  - split; [| split]; cbn.
    + intros H. exfalso. apply H. reflexivity.
    + intros render [].
    + intros H. exfalso. apply H. reflexivity.
  - rewrite happenAll_app. apply happen_invariant, IH.
Qed.

(** While one of the things [predictGesture] tests first is missing, no
    result is on display. *)
Lemma missing_means_no_result : forall happenings env,
  nothingLost happenings env ->
  model (rendered (happenAll happenings initialComponent)) = None \/
  available env = false ->
  gameResult (current (happenAll happenings initialComponent)) = None.
Proof.
  intros hs env Hkept Hmissing.
  destruct (happenAll_invariant hs) as (Hresult & _ & _).
  destruct (gameResult (current (happenAll hs initialComponent))) as [r |] eqn:Hr;
    [| reflexivity].
  exfalso. destruct Hresult as [Hm Hex]; [rewrite ?Hr; discriminate |].
  destruct Hmissing as [Hnone | Hav]; [congruence |].
  apply Exists_exists in Hex. destruct Hex as (earlier & Hin & Hearlier).
  unfold nothingLost in Hkept. rewrite Forall_forall in Hkept.
  specialize (Hkept earlier Hin Hearlier). congruence.
Qed.

(** C10: when the model is not loaded, or the video element, the canvas or
    its 2D context is missing, [predictGesture] returns [null] without
    throwing and without touching the state, and the round that
    [playRound] began ends early: [isPlaying] is false again and the
    score, the current prediction, the computer's choice and the game
    result are what they were before the call.  The game result is left
    as it was because none is on display then: over the life of the
    component, in which a model once set stays set and the browser takes
    away nothing that an earlier round found, a result is on display only
    after a round found the model, the video, the canvas and the context. *)
Theorem early_return_changes_nothing : forall happenings t env,
  let c := happenAll happenings initialComponent in
  let s1 := setGameResult None (setIsPlaying true (current c)) in
  let s' := playRound_settle (rendered c) env s1 in
  nothingLost happenings env ->
  isCameraActive (rendered c) = true ->
  isPlaying (rendered c) = false ->
  (model (rendered c) = None \/ videoRef env = None \/ canvasRef env = None \/
   canvasRef env = Some (mkCanvas false)) ->
  predictGesture (rendered c) env = (fun st => st, Normal None) /\
  playRound_call (rendered c) (current c) = Some s1 /\
  current (happen (happen c (Calls t)) (Settles (List.length (pending c)) env))
    = s' /\
  isPlaying s' = false /\
  score s' = score (current c) /\
  currentPrediction s' = currentPrediction (current c) /\
  computerChoice s' = computerChoice (current c) /\
  gameResult s' = gameResult (current c) /\
  (isPlaying (current c) = false -> s' = current c).
Proof.
  intros hs t env c s1 s' Hkept Hcam Hplay Hmissing.
  pose proof (predictGesture_null (rendered c) env Hmissing) as Hnull.
  assert (Hnone : gameResult (current c) = None).
  { apply (missing_means_no_result hs env Hkept).
    unfold available.
    destruct Hmissing as [H | [H | [H | H]]].
    - left. exact H.
    - right. rewrite H. reflexivity.
    - right. rewrite H. destruct (videoRef env); reflexivity.
    - right. rewrite H. destruct (videoRef env); reflexivity. }
  assert (Hs' : s' = setIsPlaying false (setIsPlaying false s1)).
  { subst s'. unfold playRound_settle. rewrite Hnull. reflexivity. }
  split; [exact Hnull |].
  split; [apply playRound_call_Some; assumption |].
  split.
  { rewrite (calls_started c t Hcam Hplay). cbn [happen pending].
    rewrite nth_error_app2, Nat.sub_diag by lia. reflexivity. }
  rewrite Hs'. subst s1. cbn. rewrite Hnone.
  repeat split; try reflexivity.
  intros Hidle. destruct (current c); cbn in *; subst; reflexivity.
Qed.

(** The canvas gives no 2D context: a first round ended early for that,
    and so does the next one, with nothing changed. *)
Lemma early_return_changes_nothing_witness :
  let c := happenAll Examples.happeningsNoContext initialComponent in
  let s1 := setGameResult None (setIsPlaying true (current c)) in
  let s' := playRound_settle (rendered c) Examples.browserNoContext s1 in
  predictGesture (rendered c) Examples.browserNoContext
    = (fun st => st, Normal None) /\
  playRound_call (rendered c) (current c) = Some s1 /\
  current (happen (happen c (Calls TimerTick))
                  (Settles (List.length (pending c)) Examples.browserNoContext))
    = s' /\
  isPlaying s' = false /\
  score s' = score (current c) /\
  currentPrediction s' = currentPrediction (current c) /\
  computerChoice s' = computerChoice (current c) /\
  gameResult s' = gameResult (current c) /\
  (isPlaying (current c) = false -> s' = current c).
Proof.
  apply (early_return_changes_nothing Examples.happeningsNoContext TimerTick
           Examples.browserNoContext).
  - repeat constructor. vm_compute. discriminate.
  - vm_compute. reflexivity.
  - vm_compute. reflexivity.
  - right. right. right. reflexivity.
Defined.

(** ** The arg-max of the probabilities *)

Section ArgMax.

Local Open Scope Q_scope.

Lemma fold_pickOpt : forall xs m,
  fold_left Math_max_step xs (Some m) = Some (fold_left pick xs m).
Proof. induction xs as [| x xs IH]; intros m; simpl; auto. Qed.

Lemma Math_max_cons : forall x xs,
  Math_max (x :: xs) = Some (fold_left pick xs x).
Proof. intros. unfold Math_max. simpl. apply fold_pickOpt. Qed.

Lemma pick_ge : forall m x, m <= pick m x /\ x <= pick m x.
Proof.
  intros m x. unfold pick. destruct (Qle_bool m x) eqn:H.
  - apply Qle_bool_iff in H. split; [exact H | apply Qle_refl].
  - split; [apply Qle_refl |].
    apply Qlt_le_weak, Qnot_le_lt. intros Hle.
    apply Qle_bool_iff in Hle. congruence.
Qed.

Lemma fold_pick_ge : forall xs m,
  m <= fold_left pick xs m /\ forall x, In x xs -> x <= fold_left pick xs m.
Proof.
  induction xs as [| y xs IH]; intros m; simpl.
  - split; [apply Qle_refl | tauto].
  - destruct (IH (pick m y)) as [IH1 IH2].
    destruct (pick_ge m y) as [Hm Hy]. split.
    + eapply Qle_trans; eauto.
    + intros x [<- | Hin]; [eapply Qle_trans; eauto | auto].
Qed.

Lemma fold_pick_in : forall xs m,
  fold_left pick xs m = m \/ In (fold_left pick xs m) xs.
Proof.
  induction xs as [| y xs IH]; intros m; simpl; auto.
  destruct (IH (pick m y)) as [H | H]; auto.
  rewrite H. unfold pick. destruct (Qle_bool m y); auto.
Qed.

(** [Math.max] of a vector with an entry is one of the entries, and no
    entry is greater. *)
Lemma Math_max_spec : forall xs,
  xs <> [] ->
  exists m, Math_max xs = Some m /\ In m xs /\ forall x, In x xs -> x <= m.
Proof.
  intros [| x xs] Hne; [congruence |].
  exists (fold_left pick xs x). rewrite Math_max_cons.
  destruct (fold_pick_ge xs x) as [H1 H2].
  split; [reflexivity |]. split.
  - destruct (fold_pick_in xs x) as [-> | H]; simpl; auto.
  - intros y [<- | Hin]; auto.
Qed.

(** [indexOf] of a value that occurs is the first index that holds it. *)
Lemma indexOf_from_spec : forall xs v i,
  (exists x, In x xs /\ x == v) ->
  exists k,
    indexOf_from xs v i = (i + Z.of_nat k)%Z /\
    (exists m, nth_error xs k = Some m /\ m == v) /\
    (forall j q, (j < k)%nat -> nth_error xs j = Some q -> ~ q == v).
Proof.
  induction xs as [| y xs IH]; intros v i (x & Hin & Hx); [destruct Hin |].
  simpl. destruct (Qeq_bool y v) eqn:Hy.
  - exists 0%nat. split; [lia |]. split.
    + exists y. split; [reflexivity | now apply Qeq_bool_iff].
    + intros j q Hj. lia.
  - assert (Hrest : exists x', In x' xs /\ x' == v).
    { destruct Hin as [<- | Hin]; [| eauto].
      apply Qeq_bool_iff in Hx. congruence. }
    destruct (IH v (i + 1)%Z Hrest) as (k & Hk & Hm & Hfirst).
    exists (S k). split; [lia |]. split; [exact Hm |].
    intros [| j] q Hj Hq; simpl in Hq.
    + injection Hq as <-. intros Heq. apply Qeq_bool_iff in Heq. congruence.
    + apply (Hfirst j q); [lia | exact Hq].
Qed.

Lemma nth_error_In' : forall (xs : list Q) j q, nth_error xs j = Some q -> In q xs.
Proof. intros. eapply nth_error_In; eauto. Qed.

(** STEP 7 finds the arg-max index of a vector that has an entry. *)
Lemma maxIndex_is_argmax : forall probabilities,
  probabilities <> [] ->
  exists i, maxIndex probabilities = Z.of_nat i /\ is_argmax probabilities i.
Proof.
  intros xs Hne.
  destruct (Math_max_spec xs Hne) as (M & HM & Hin & Hmax).
  unfold maxIndex. rewrite HM. simpl.
  destruct (indexOf_from_spec xs M 0%Z) as (k & Hk & (m & Hm & HmM) & Hfirst).
  { exists M. split; [exact Hin | apply Qeq_refl]. }
  exists k. split; [rewrite Hk; lia |].
  exists m. split; [exact Hm |]. split.
  - intros j q Hq. rewrite HmM. apply Hmax. eapply nth_error_In'; eauto.
  - intros j q Hj Hq. rewrite HmM.
    pose proof (Hmax q (nth_error_In' xs j q Hq)) as Hle.
    apply Qle_lt_or_eq in Hle.
    destruct Hle as [Hlt | Heq]; [exact Hlt |].
    exfalso. apply (Hfirst j q Hj Hq Heq).
Qed.

End ArgMax.

Lemma at_index_of_nat : forall (A : Type) (a : list A) i,
  at_index a (Z.of_nat i) = nth_error a i.
Proof.
  intros. unfold at_index.
  destruct (Z.ltb_spec (Z.of_nat i) 0); [lia |]. now rewrite Nat2Z.id.
Qed.

(** On the three probabilities of the classifier the index found is 0, 1
    or 2: the reads [CLASSES[maxIndex]] and [probabilities[maxIndex]] are
    defined. *)
Lemma maxIndex_dataSync : forall p : Probabilities,
  exists i g,
    maxIndex (dataSync p) = Z.of_nat i /\ is_argmax (dataSync p) i /\
    nth_error CLASSES i = Some g /\
    pickGesture (dataSync p) = mkPrediction g
      (match nth_error (dataSync p) i with Some c => c | None => 0%Q end).
Proof.
  intros p.
  destruct (maxIndex_is_argmax (dataSync p)) as (i & Hi & Harg);
    [discriminate |].
  assert (Hlt : (i < 3)%nat).
  { destruct Harg as (m & Hm & _).
    change 3%nat with (List.length (dataSync p)).
    apply nth_error_Some. rewrite Hm. discriminate. }
  unfold pickGesture. rewrite Hi, !at_index_of_nat.
  destruct i as [| [| [| i]]]; [| | | lia];
    eexists _, _; (split; [reflexivity |]); (split; [exact Harg |]);
    split; reflexivity.
Qed.

(** What [predictGesture] went through when it gives a prediction. *)
Lemma predictGesture_Some : forall s env playerResult,
  snd (predictGesture s env) = Normal (Some playerResult) ->
  exists m video img final p,
    model s = Some m /\ videoRef env = Some video /\
    captureRegion s video = Normal img /\
    resize16 env img = Normal final /\
    m (toTensor final) = Normal p /\
    playerResult = pickGesture (dataSync p).
Proof.
  intros s env pr. unfold predictGesture.
  destruct (model s) as [m |]; [| discriminate].
  destruct (videoRef env) as [video |]; [| discriminate].
  destruct (canvasRef env) as [canvas |]; [| discriminate].
  destruct (context2d canvas); cbn [negb snd]; [| discriminate].
  destruct (if hands s then _ else _) as [updates | e]; cbn [snd bind];
    [| discriminate].
  destruct (captureRegion s video) as [img | e] eqn:Himg; cbn [bind];
    [| discriminate].
  destruct (resize16 env img) as [final | e] eqn:Hfinal; cbn [bind];
    [| discriminate].
  destruct (m (toTensor final)) as [p | e] eqn:Hp; cbn [bind]; [| discriminate].
  intros H. injection H as <-. exists m, video, img, final, p. auto 10.
Qed.

(** How [predictGesture] settles once the model, the video and the canvas
    are there and the frame was sent: by the rectangle, the canvas and the
    classifier alone. *)
Lemma predictGesture_ready : forall s env m video canvas,
  model s = Some m -> videoRef env = Some video ->
  canvasRef env = Some canvas -> context2d canvas = true ->
  (hands s = true -> exists results, handsSend env = Normal results) ->
  snd (predictGesture s env) =
  (do processedImageData <- captureRegion s video;
   do finalImageData <- resize16 env processedImageData;
   do probabilities <- m (toTensor finalImageData);
   Normal (Some (pickGesture (dataSync probabilities)))).
Proof.
  intros s env m video canvas Hm Hv Hc Hctx Hsend.
  unfold predictGesture. rewrite Hm, Hv, Hc, Hctx. cbn [negb].
  destruct (hands s).
  - destruct Hsend as [results ->]; reflexivity.
  - reflexivity.
Qed.

(** On finite numbers [Math.max] and [indexOf] are the ones on rationals. *)
Lemma greater_finite : forall ps m,
  fold_left Number_greater (map Finite ps) (Finite m)
    = Finite (fold_left pick ps m).
Proof. induction ps as [| p ps IH]; intros m; simpl; auto. Qed.

Lemma indexOf_numbers_finite : forall ps v i,
  indexOf_numbers_from (map Finite ps) (Finite v) i = indexOf_from ps v i.
Proof.
  induction ps as [| p ps IH]; intros v i; simpl; [reflexivity |].
  destruct (Qeq_bool p v); auto.
Qed.

Lemma maxIndex_numbers_finite : forall ps,
  ps <> [] ->
  indexOf_numbers (map Finite ps) (Math_max_numbers (map Finite ps))
    = maxIndex ps.
Proof.
  intros [| p ps] Hne; [congruence |].
  unfold maxIndex, Math_max_numbers. rewrite Math_max_cons.
  cbn [map fold_left Number_greater]. rewrite greater_finite.
  apply (indexOf_numbers_finite (p :: ps)).
Qed.

(** C9: the probabilities that the classifier returns for the tensor of
    the frame decide the result of [predictGesture]: the gesture is the
    class, in the order [rock, paper, scissors], at the arg-max index of
    these probabilities, and the confidence is the probability at that
    index.  In predict.ts, for a vector of three probabilities that the
    model returns for the tensor of the image, [predict] names the class
    at the arg-max index of that vector, in the same order. *)
Theorem gesture_is_argmax_of_probabilities :
  forall s env m video canvas img final p classifier image tensor ps,
  model s = Some m -> videoRef env = Some video ->
  canvasRef env = Some canvas -> context2d canvas = true ->
  (hands s = true -> exists results, handsSend env = Normal results) ->
  captureRegion s video = Normal img ->
  resize16 env img = Normal final ->
  m (toTensor final) = Normal p ->
  Predict.preprocess image = Normal tensor ->
  classifier tensor = Normal (map Finite ps) ->
  List.length ps = 3%nat ->
  (exists i g c,
     is_argmax (dataSync p) i /\
     nth_error CLASSES i = Some g /\
     nth_error (dataSync p) i = Some c /\
     snd (predictGesture s env) = Normal (Some (mkPrediction g c))) /\
  (exists i name,
     is_argmax ps i /\
     nth_error Predict.CLASSES i = Some name /\
     Predict.predict classifier image = Normal (Some name, map Finite ps)) /\
  CLASSES = [rock; paper; scissors] /\
  Predict.CLASSES = ["rock"%string; "paper"%string; "scissors"%string].
Proof.
  intros s env m video canvas img final p classifier image tensor ps
         Hm Hv Hc Hctx Hsend Himg Hfinal Hp Htensor Hps Hlen.
  split; [| split; [| split; reflexivity]].
  - rewrite (predictGesture_ready s env m video canvas) by assumption.
    rewrite Himg. cbn [bind]. rewrite Hfinal. cbn [bind].
    rewrite Hp. cbn [bind].
    destruct (maxIndex_dataSync p) as (i & g & _ & Harg & Hg & ->).
    pose proof Harg as (c & Hc' & _).
    exists i, g, c. rewrite Hc'. auto.
  - unfold Predict.predict. rewrite Htensor. cbn [bind].
    rewrite Hps. cbn [bind].
    assert (Hne : ps <> []) by (intros ->; discriminate).
    rewrite (maxIndex_numbers_finite ps Hne).
    destruct (maxIndex_is_argmax ps Hne) as (i & Hi & Harg).
    rewrite Hi, at_index_of_nat.
    assert (Hlt : (i < 3)%nat).
    { destruct Harg as (c & Hc' & _). rewrite <- Hlen.
      apply nth_error_Some. rewrite Hc'. discriminate. }
    destruct i as [| [| [| i]]]; [| | | lia];
      eexists _, _; (split; [exact Harg |]); split; reflexivity.
Qed.

(** The frame of [Examples.browser320] read by the ready component, and
    the image of [Examples.rgbImage] read by predict.ts: the classifier
    says paper with 7/10 in both. *)
Lemma gesture_is_argmax_of_probabilities_witness :
  (exists i g c,
     is_argmax (dataSync (mkProbabilities (1 # 10) (7 # 10) (2 # 10))) i /\
     nth_error CLASSES i = Some g /\
     nth_error (dataSync (mkProbabilities (1 # 10) (7 # 10) (2 # 10))) i
       = Some c /\
     snd (predictGesture Examples.readyState Examples.browser320)
       = Normal (Some (mkPrediction g c))) /\
  (exists i name,
     is_argmax [1 # 10; 7 # 10; 2 # 10]%Q i /\
     nth_error Predict.CLASSES i = Some name /\
     Predict.predict Examples.paperModel Examples.rgbImage
       = Normal (Some name, map Finite [1 # 10; 7 # 10; 2 # 10]%Q)) /\
  CLASSES = [rock; paper; scissors] /\
  Predict.CLASSES = ["rock"%string; "paper"%string; "scissors"%string].
Proof.
  eapply (gesture_is_argmax_of_probabilities
            Examples.readyState Examples.browser320 Examples.paperClassifier
            Examples.video320 (mkCanvas true) _ _
            (mkProbabilities (1 # 10) (7 # 10) (2 # 10))
            Examples.paperModel Examples.rgbImage Examples.inferredTensor
            [1 # 10; 7 # 10; 2 # 10]%Q).
  - reflexivity.
  - reflexivity.
  - reflexivity.
  - reflexivity.
  - intros _. exists []. reflexivity.
  - reflexivity.
  - reflexivity.
  - reflexivity.
  - vm_compute. reflexivity.
  - reflexivity.
  - reflexivity.
Defined.

(** ** The tensor handed to the classifier *)

Lemma byteVal_range : forall b, 0 <= byteVal b <= 255.
Proof.
  intros b. unfold byteVal. pose proof (Byte.to_N_bounded b). lia.
Qed.

Lemma scaled_inUnit : forall b, inUnit (scaled b).
Proof.
  intros b. pose proof (byteVal_range b) as Hb.
  unfold inUnit, scaled, Qdiv, Qmult, Qinv, Qle. simpl. lia.
Qed.

Lemma flat_map_of_map : forall (A B C : Type) (f : B -> list C) (g : A -> B) l,
  flat_map (fun a => f (g a)) l = flat_map f (map g l).
Proof. induction l as [| a l IH]; simpl; congruence. Qed.

(** The byte array of an image is its pixels, four bytes each. *)
Lemma data_pixels : forall img,
  ImageData.data img =
  flat_map (fun c => [red c; green c; blue c; alpha c]) (pixels img).
Proof.
  intros img. unfold ImageData.data, pixels.
  induction (ImageData.range (ImageData.height img)) as [| row rows IH]; simpl.
  - reflexivity.
  - rewrite flat_map_app, IH. f_equal.
    apply (flat_map_of_map _ _ _
             (fun c => [red c; green c; blue c; alpha c])
             (fun col => ImageData.pixel img col row)).
Qed.

Lemma rgbOfRgba_pixels : forall pxs,
  rgbOfRgba (flat_map (fun c => [red c; green c; blue c; alpha c]) pxs) =
  flat_map (fun c => [red c; green c; blue c]) pxs.
Proof. induction pxs as [| c pxs IH]; simpl; congruence. Qed.

Lemma toTensor_values : forall img,
  Tensor.values (toTensor img) = flat_map scaledRGB (pixels img).
Proof.
  intros img. unfold toTensor, fromPixels. simpl.
  rewrite data_pixels, rgbOfRgba_pixels.
  induction (pixels img) as [| c pxs IH]; simpl; [reflexivity |].
  rewrite IH. reflexivity.
Qed.

(** STEP 4 never fails, and gives the 16x16 canvas as the browser drew it. *)
Lemma resize16_Normal : forall env img,
  exists final,
    resize16 env img = Normal final /\
    ImageData.width final = 16 /\ ImageData.height final = 16 /\
    pixels final =
      flat_map (fun row => map (fun col => drawImage16 env img col row)
                               (ImageData.range 16))
               (ImageData.range 16).
Proof.
  intros env img. eexists. split; [reflexivity |].
  split; [reflexivity |]. split; [reflexivity |].
  vm_compute. reflexivity.
Qed.

Lemma flat_map_length_const : forall (A B : Type) (f : A -> list B) n l,
  (forall a, List.length (f a) = n) ->
  List.length (flat_map f l) = (List.length l * n)%nat.
Proof.
  intros A B f n l Hf. induction l as [| a l IH]; simpl; [reflexivity |].
  rewrite length_app, Hf, IH. reflexivity.
Qed.

(** C7: the tensor that [predictGesture] hands to the model has shape
    [1, 16, 16, 3]; its 768 entries are, pixel after pixel of the 16x16
    canvas and channel after channel (red, green, blue), the 8-bit value of
    the channel divided by 255, and each lies in [0, 1].  In predict.ts an
    image whose 16x16 raw buffer has three channels gives a tensor of the
    same shape whose entries are the bytes of the buffer divided by 255,
    each in [0, 1]. *)
Theorem preprocessing_scales_channels : forall env img image resizedBuffer,
  image 16 16 = Normal resizedBuffer ->
  List.length resizedBuffer = (16 * 16 * 3)%nat ->
  (exists final,
     resize16 env img = Normal final /\
     Tensor.shape (toTensor final) = [1; 16; 16; 3] /\
     Tensor.values (toTensor final) =
       flat_map scaledRGB
         (flat_map (fun row => map (fun col => drawImage16 env img col row)
                                   (ImageData.range 16))
                   (ImageData.range 16)) /\
     List.length (Tensor.values (toTensor final)) = (16 * 16 * 3)%nat /\
     Forall inUnit (Tensor.values (toTensor final))) /\
  (exists tensor,
     Predict.preprocess image = Normal tensor /\
     Tensor.shape tensor = [1; 16; 16; 3] /\
     Tensor.values tensor = map scaled resizedBuffer /\
     List.length (Tensor.values tensor) = (16 * 16 * 3)%nat /\
     Forall inUnit (Tensor.values tensor)).
Proof.
  intros env img image buf Himage Hlen. split.
  - destruct (resize16_Normal env img) as (final & Hfinal & Hw & Hh & Hpx).
    exists final. split; [exact Hfinal |].
    assert (Hvalues : Tensor.values (toTensor final) =
              flat_map scaledRGB
                (flat_map (fun row => map (fun col => drawImage16 env img col row)
                                          (ImageData.range 16))
                          (ImageData.range 16))).
    { rewrite toTensor_values, Hpx. reflexivity. }
    split; [| split; [exact Hvalues | split]].
    + unfold toTensor, fromPixels. simpl. now rewrite Hw, Hh.
    + rewrite Hvalues.
      rewrite (flat_map_length_const _ _ scaledRGB 3) by reflexivity.
      rewrite (flat_map_length_const _ _ _ 16) by (intros; now rewrite length_map).
      reflexivity.
    + rewrite Hvalues. apply Forall_flat_map, Forall_forall. intros px _.
      unfold scaledRGB. repeat constructor; apply scaled_inUnit.
  - unfold Predict.preprocess. rewrite Himage. cbn [bind].
    unfold tensor3d. rewrite Hlen. cbn [bind].
    eexists. split; [reflexivity |]. simpl.
    split; [reflexivity |]. split; [| split].
    + rewrite map_map. reflexivity.
    + now rewrite !length_map.
    + rewrite map_map. apply Forall_forall. intros v Hv.
      apply in_map_iff in Hv. destruct Hv as (b & <- & _).
      apply scaled_inUnit.
Qed.

Lemma preprocessing_scales_channels_witness :
  (exists final,
     resize16 Examples.browser320 Examples.crop4 = Normal final /\
     Tensor.shape (toTensor final) = [1; 16; 16; 3] /\
     Tensor.values (toTensor final) =
       flat_map scaledRGB
         (flat_map (fun row =>
                      map (fun col =>
                             drawImage16 Examples.browser320 Examples.crop4
                                         col row)
                          (ImageData.range 16))
                   (ImageData.range 16)) /\
     List.length (Tensor.values (toTensor final)) = (16 * 16 * 3)%nat /\
     Forall inUnit (Tensor.values (toTensor final))) /\
  (exists tensor,
     Predict.preprocess Examples.rgbImage = Normal tensor /\
     Tensor.shape tensor = [1; 16; 16; 3] /\
     Tensor.values tensor = map scaled Examples.rgbBuffer16 /\
     List.length (Tensor.values tensor) = (16 * 16 * 3)%nat /\
     Forall inUnit (Tensor.values tensor)).
Proof.
  apply (preprocessing_scales_channels Examples.browser320 Examples.crop4
           Examples.rgbImage Examples.rgbBuffer16).
  - reflexivity.
  - reflexivity.
Defined.

(** A raw buffer with four channels (a PNG with alpha) does not fill the
    shape: predict.ts throws before any tensor is made. *)
Lemma preprocess_rgba_rejected :
  Predict.preprocess (fun _ _ => Normal Examples.rgbaBuffer16) = Abrupt ShapeError.
Proof. vm_compute. reflexivity. Qed.

(** ** The size of the tensors in training and in inference *)

Lemma tensor3d_shape : forall buffer shape t,
  tensor3d buffer shape = Normal t -> Tensor.shape t = shape.
Proof.
  intros buffer shape t H. unfold tensor3d in H.
  destruct (_ =? _); [| discriminate]. injection H as <-. reflexivity.
Qed.

(** The same image goes into train.ts as a tensor of 64x64 pixels and
    into predict.ts as one of 16x16: the two scripts do not share their
    size, and neither do the input shapes of their models. *)
Lemma shared_size_counterexample :
  Train.loadImage Examples.rgbImage = Normal Examples.trainedTensor /\
  Predict.preprocess Examples.rgbImage = Normal Examples.inferredTensor /\
  Tensor.shape Examples.trainedTensor = [1; 64; 64; 3] /\
  Tensor.shape Examples.inferredTensor = [1; 16; 16; 3] /\
  Tensor.shape Examples.trainedTensor <> Tensor.shape Examples.inferredTensor /\
  Train.inputShape <> Predict.inputShape.
Proof.
  split; [vm_compute; reflexivity |].
  split; [vm_compute; reflexivity |].
  split; [reflexivity |]. split; [reflexivity |].
  split; discriminate.
Qed.

(** C6, as the code has it: there is no size shared by the scripts, each
    writes its own.  In each script the tensor made of an image has the
    side of the input shape that the script gives its model: 64 in
    train.ts, 16 in the fast training script, in predict.ts and in
    App.tsx.  The fast training script and the two inference paths agree
    on 16 and on the input shape [16, 16, 3]; train.ts, with 64, agrees
    with neither. *)
Theorem sizes_agree_within_each_variant :
  forall image trained fast inferred env img final,
  Train.loadImage image = Normal trained ->
  FastTrain.loadImage image = Normal fast ->
  Predict.preprocess image = Normal inferred ->
  resize16 env img = Normal final ->
  (Tensor.shape trained = 1 :: Train.inputShape /\
   Train.inputShape = [64; 64; 3]) /\
  (Tensor.shape fast = FastTrain.inputShape /\
   FastTrain.inputShape = [16; 16; 3]) /\
  (Tensor.shape inferred = 1 :: Predict.inputShape /\
   Predict.inputShape = [16; 16; 3]) /\
  (Tensor.shape (toTensor final) = 1 :: demoInputShape /\
   demoInputShape = [16; 16; 3]) /\
  (FastTrain.inputShape = Predict.inputShape /\
   FastTrain.inputShape = demoInputShape /\
   inferred = Tensor.expandDims0 fast /\
   Tensor.shape inferred = Tensor.shape (toTensor final)) /\
  (Train.inputShape <> Predict.inputShape /\
   Train.inputShape <> demoInputShape /\
   Tensor.shape trained <> Tensor.shape inferred /\
   Tensor.shape trained <> Tensor.shape (toTensor final)).
Proof.
  intros image trained fast inferred env img final Htrain Hfast Hinfer Hfinal.
  assert (H1 : Tensor.shape trained = [1; 64; 64; 3]).
  { unfold Train.loadImage in Htrain.
    destruct (image 64 64) as [buf |]; [| discriminate]. cbn [bind] in Htrain.
    destruct (tensor3d buf [64; 64; 3]) as [t |] eqn:Ht; [| discriminate].
    cbn [bind] in Htrain. injection Htrain as <-.
    apply tensor3d_shape in Ht. simpl. now rewrite Ht. }
  assert (H2 : Tensor.shape fast = [16; 16; 3] /\
               inferred = Tensor.expandDims0 fast).
  { unfold FastTrain.loadImage in Hfast. unfold Predict.preprocess in Hinfer.
    destruct (image 16 16) as [buf |]; [| discriminate].
    cbn [bind] in Hfast, Hinfer.
    destruct (tensor3d buf [16; 16; 3]) as [t |] eqn:Ht; [| discriminate].
    cbn [bind] in Hfast, Hinfer. injection Hfast as <-. injection Hinfer as <-.
    apply tensor3d_shape in Ht. simpl. now rewrite Ht. }
  destruct H2 as [H2 ->].
  assert (H3 : Tensor.shape (toTensor final) = [1; 16; 16; 3]).
  { destruct (resize16_Normal env img) as (final' & Hf & Hw & Hh & _).
    rewrite Hfinal in Hf. injection Hf as <-.
    unfold toTensor, fromPixels. simpl. now rewrite Hw, Hh. }
  cbn [Tensor.shape Tensor.expandDims0]. rewrite H1, H2, H3.
  repeat split; discriminate.
Qed.

Lemma sizes_agree_within_each_variant_witness :
  (Tensor.shape Examples.trainedTensor = 1 :: Train.inputShape /\
   Train.inputShape = [64; 64; 3]) /\
  (Tensor.shape Examples.fastTensor = FastTrain.inputShape /\
   FastTrain.inputShape = [16; 16; 3]) /\
  (Tensor.shape Examples.inferredTensor = 1 :: Predict.inputShape /\
   Predict.inputShape = [16; 16; 3]) /\
  (Tensor.shape (toTensor Examples.canvas16) = 1 :: demoInputShape /\
   demoInputShape = [16; 16; 3]) /\
  (FastTrain.inputShape = Predict.inputShape /\
   FastTrain.inputShape = demoInputShape /\
   Examples.inferredTensor = Tensor.expandDims0 Examples.fastTensor /\
   Tensor.shape Examples.inferredTensor
     = Tensor.shape (toTensor Examples.canvas16)) /\
  (Train.inputShape <> Predict.inputShape /\
   Train.inputShape <> demoInputShape /\
   Tensor.shape Examples.trainedTensor <> Tensor.shape Examples.inferredTensor /\
   Tensor.shape Examples.trainedTensor
     <> Tensor.shape (toTensor Examples.canvas16)).
Proof.
  apply (sizes_agree_within_each_variant Examples.rgbImage
           Examples.trainedTensor Examples.fastTensor Examples.inferredTensor
           Examples.browser320 Examples.crop4 Examples.canvas16).
  - vm_compute. reflexivity.
  - vm_compute. reflexivity.
  - vm_compute. reflexivity.
  - reflexivity.
Defined.

(** ** The rectangle read from the frame *)

Lemma toLong_comp : forall p q, (p == q)%Q -> toLong p = toLong q.
Proof.
  intros p q Hpq. unfold toLong.
  assert (Hb : Qle_bool 0 p = Qle_bool 0 q).
  { destruct (Qle_bool 0 q) eqn:Hq.
    - apply Qle_bool_iff. rewrite Hpq. now apply Qle_bool_iff.
    - destruct (Qle_bool 0 p) eqn:Hp; [| reflexivity].
      apply Qle_bool_iff in Hp. rewrite Hpq in Hp.
      apply Qle_bool_iff in Hp. congruence. }
  rewrite Hb. destruct (Qle_bool 0 q).
  - apply Qfloor_comp, Hpq.
  - apply Qceiling_comp, Hpq.
Qed.

Lemma toLong_zero : forall w v, (w == 0)%Q -> toLong (w * v) = 0.
Proof.
  intros w v Hw. rewrite (toLong_comp (w * v) 0); [reflexivity |].
  rewrite Hw. apply Qmult_0_l.
Qed.

Lemma toLong_pos : forall q, (1 <= q)%Q -> 0 < toLong q.
Proof.
  intros q Hq. unfold toLong.
  assert (H0 : Qle_bool 0 q = true).
  { apply Qle_bool_iff. eapply Qle_trans; [| exact Hq]. discriminate. }
  rewrite H0. apply (Qfloor_resp_le 1 q) in Hq.
  change (Qfloor 1) with 1 in Hq. lia.
Qed.

(** A rectangle of at least one pixel each way is read as it stands. *)
Lemma getImageData_Normal : forall b sx sy sw sh,
  0 < toLong sw -> 0 < toLong sh ->
  getImageData b sx sy sw sh =
  Normal (ImageData.mk (fun i j => bitmapAt b (toLong sx + i) (toLong sy + j))
                       (toLong sw) (toLong sh)).
Proof.
  intros b sx sy sw sh Hw Hh. unfold getImageData.
  destruct (Z.eqb_spec (toLong sw) 0); [lia |].
  destruct (Z.eqb_spec (toLong sh) 0); [lia |]. simpl.
  rewrite !Z.min_l, !Z.abs_eq by lia. reflexivity.
Qed.

(** A rectangle without width or without height cannot be read. *)
Lemma getImageData_empty : forall b sx sy sw sh,
  toLong sw = 0 \/ toLong sh = 0 ->
  getImageData b sx sy sw sh = Abrupt IndexSizeError.
Proof.
  intros b sx sy sw sh H. unfold getImageData.
  destruct H as [-> | ->]; simpl; [reflexivity |].
  now rewrite orb_true_r.
Qed.

Lemma playRound_rejected : forall s env e,
  isCameraActive s = true -> isPlaying s = false ->
  snd (predictGesture s env) = Abrupt e ->
  score (playRound s env) = score s /\
  gameResult (playRound s env) = None /\
  isPlaying (playRound s env) = false.
Proof.
  intros s env e Hcam Hplay He.
  unfold playRound. rewrite (playRound_begin_Some _ Hcam Hplay).
  pose proof (playRound_settle_cases s env
                (setGameResult None (setIsPlaying true s))) as (H1 & _ & H2).
  rewrite He in H2. simpl in H2. tauto.
Qed.

Lemma cropRegion_no_hand : forall s videoWidth videoHeight,
  handDetected s = false \/ handBoundingBox s = None ->
  cropRegion s videoWidth videoHeight = fallbackRegion videoWidth videoHeight.
Proof.
  intros s vw vh [H | H]; unfold cropRegion; rewrite H; [reflexivity |].
  destruct (handDetected s); reflexivity.
Qed.

Lemma fallback_side_pos : forall videoWidth videoHeight,
  2 <= Z.min videoWidth videoHeight ->
  0 < toLong (inject_Z (Z.min videoWidth videoHeight) * (6 # 10)).
Proof.
  intros vw vh Hmin. apply toLong_pos.
  unfold Qle, Qmult, inject_Z. simpl. lia.
Qed.

Lemma toLong_zero_r : forall w, toLong (w * inject_Z 0) = 0.
Proof.
  intros w. rewrite (toLong_comp (w * inject_Z 0) 0); [reflexivity |].
  apply Qmult_0_r.
Qed.

(** A rectangle of STEP 3 without width or height cannot be read. *)
Lemma zeroSize_capture : forall s video,
  zeroSize s video -> captureRegion s video = Abrupt IndexSizeError.
Proof.
  intros s video H. unfold captureRegion, cropRegion. unfold zeroSize in H.
  assert (Hfallback :
    Z.min (videoWidth video) (videoHeight video) = 0 ->
    (let '(sx, sy, sw, sh) :=
       fallbackRegion (videoWidth video) (videoHeight video) in
     getImageData (mkBitmap (videoWidth video) (videoHeight video) (frame video))
                  sx sy sw sh) = Abrupt IndexSizeError).
  { intros Hmin. unfold fallbackRegion. rewrite Hmin.
    apply getImageData_empty. left. reflexivity. }
  destruct (handDetected s); [| auto].
  destruct (handBoundingBox s) as [box |]; [| auto].
  unfold handRegion. apply getImageData_empty.
  destruct H as [H | [H | [H | H]]].
  - left. apply toLong_zero, H.
  - right. apply toLong_zero, H.
  - left. rewrite H. apply toLong_zero_r.
  - right. rewrite H. apply toLong_zero_r.
Qed.

(** C5, as the code has it: when the rectangle of STEP 3 has no width or
    no height (the box of the hand held by the render has a zero width or
    height, or the frame a zero dimension), [getImageData] throws
    IndexSizeError; [predictGesture] rejects with it whatever the model
    is, so that no tensor is made and the model is not asked; and
    [playRound] ends the round with the score as it was, no result and
    [isPlaying] false.  No other rectangle is tried, even when the centre
    square of the same frame can be read. *)
Theorem zero_size_region_aborts : forall s env m video canvas,
  model s = Some m -> videoRef env = Some video ->
  canvasRef env = Some canvas -> context2d canvas = true ->
  (hands s = true -> exists results, handsSend env = Normal results) ->
  isCameraActive s = true -> isPlaying s = false ->
  zeroSize s video ->
  captureRegion s video = Abrupt IndexSizeError /\
  snd (predictGesture s env) = Abrupt IndexSizeError /\
  resolves s env = false /\
  score (playRound s env) = score s /\
  gameResult (playRound s env) = None /\
  isPlaying (playRound s env) = false /\
  (forall other : Classifier,
     snd (predictGesture (setModel (Some other) s) env) = Abrupt IndexSizeError) /\
  (2 <= Z.min (videoWidth video) (videoHeight video) ->
   exists img, captureRegion (withoutHand s) video = Normal img).
Proof.
  intros s env m video canvas Hm Hv Hc Hctx Hsend Hcam Hplay Hempty.
  pose proof (zeroSize_capture s video Hempty) as Hcap.
  assert (Hrej : snd (predictGesture s env) = Abrupt IndexSizeError).
  { rewrite (predictGesture_ready s env m video canvas) by assumption.
    rewrite Hcap. reflexivity. }
  split; [exact Hcap |]. split; [exact Hrej |]. split.
  { unfold resolves. now rewrite Hrej. }
  destruct (playRound_rejected s env IndexSizeError Hcam Hplay Hrej)
    as (Hscore & Hresult & Hidle).
  repeat split; try assumption.
  { intros other.
    rewrite (predictGesture_ready (setModel (Some other) s) env other video
               canvas) by (try assumption; reflexivity).
    change (captureRegion (setModel (Some other) s) video)
      with (captureRegion s video).
    rewrite Hcap. reflexivity. }
  intros Hmin. unfold captureRegion.
  rewrite cropRegion_no_hand by (left; reflexivity).
  unfold fallbackRegion. eexists.
  apply getImageData_Normal; apply fallback_side_pos; exact Hmin.
Qed.

Lemma zero_size_region_aborts_witness :
  captureRegion Examples.stateThinHand Examples.video320
    = Abrupt IndexSizeError /\
  snd (predictGesture Examples.stateThinHand Examples.browserThinHand)
    = Abrupt IndexSizeError /\
  resolves Examples.stateThinHand Examples.browserThinHand = false /\
  score (playRound Examples.stateThinHand Examples.browserThinHand)
    = score Examples.stateThinHand /\
  gameResult (playRound Examples.stateThinHand Examples.browserThinHand) = None /\
  isPlaying (playRound Examples.stateThinHand Examples.browserThinHand) = false /\
  (forall other : Classifier,
     snd (predictGesture (setModel (Some other) Examples.stateThinHand)
                         Examples.browserThinHand) = Abrupt IndexSizeError) /\
  (2 <= Z.min (videoWidth Examples.video320) (videoHeight Examples.video320) ->
   exists img,
     captureRegion (withoutHand Examples.stateThinHand) Examples.video320
       = Normal img).
Proof.
  apply (zero_size_region_aborts Examples.stateThinHand Examples.browserThinHand
           Examples.paperClassifier Examples.video320 (mkCanvas true)).
  - vm_compute. reflexivity.
  - reflexivity.
  - reflexivity.
  - reflexivity.
  - intros _. exists [Examples.verticalHand]. reflexivity.
  - vm_compute. reflexivity.
  - vm_compute. reflexivity.
  - vm_compute. left. reflexivity.
Defined.

(** The locator reports a hand seen edge-on, in one round and in the next.
    In the second round the box held by the component has no width: the
    crop cannot be read and the round is given up, although the centre
    square of the same frame would have been classified.  The caller does
    not fall back on it. *)
Lemma degenerate_region_fallback_counterexample :
  handDetected Examples.stateThinHand = true /\
  (exists box, handBoundingBox Examples.stateThinHand = Some box /\
               (Box.width box == 0)%Q) /\
  pixelRegion (cropRegion Examples.stateThinHand 320 240) = (160, 48, 0, 144) /\
  snd (predictGesture Examples.stateThinHand Examples.browserThinHand)
    = Abrupt IndexSizeError /\
  snd (predictGesture (withoutHand Examples.stateThinHand)
         Examples.browserThinHand)
    = Normal (Some (mkPrediction paper (7 # 10))) /\
  snd (predictGesture Examples.stateThinHand Examples.browserThinHand)
    <> snd (predictGesture (withoutHand Examples.stateThinHand)
              Examples.browserThinHand) /\
  gameResult (playRound Examples.stateThinHand Examples.browserThinHand) = None.
Proof.
  split; [vm_compute; reflexivity |].
  split; [eexists; split; [vm_compute; reflexivity | vm_compute; reflexivity] |].
  split; [vm_compute; reflexivity |].
  split; [vm_compute; reflexivity |].
  split; [vm_compute; reflexivity |].
  split; [vm_compute; discriminate | vm_compute; reflexivity].
Qed.

(** ** Rounds without a hand *)

Lemma playRound_resolved : forall s env playerResult,
  isCameraActive s = true -> isPlaying s = false ->
  snd (predictGesture s env) = Normal (Some playerResult) ->
  let result :=
    determineWinner (gesture playerResult) (computerGesture (Math_random env)) in
  gameResult (playRound s env) = Some result /\
  score (playRound s env) = updateScore result (score s) /\
  isPlaying (playRound s env) = false.
Proof.
  intros s env pr Hcam Hplay Hpr result.
  unfold playRound. rewrite (playRound_begin_Some _ Hcam Hplay).
  pose proof (playRound_settle_cases s env
                (setGameResult None (setIsPlaying true s))) as (H1 & _ & H2).
  rewrite Hpr in H2. cbv zeta in H2. simpl in H2. tauto.
Qed.

(** When the render holds no hand, as in the first round or in the round
    after one in which the locator found none, the rectangle read is the
    centre square whose side is 60% of the smaller dimension of the frame;
    with a frame of at least two pixels each way it is read, and whatever
    probabilities the model returns for its 16x16 canvas decide the
    player's gesture of a round that resolves. *)
Lemma render_without_hand_reads_centre : forall s env m video canvas,
  isCameraActive s = true -> isPlaying s = false ->
  model s = Some m -> videoRef env = Some video ->
  canvasRef env = Some canvas -> context2d canvas = true ->
  (hands s = true -> exists results, handsSend env = Normal results) ->
  (handDetected s = false \/ handBoundingBox s = None) ->
  2 <= Z.min (videoWidth video) (videoHeight video) ->
  let side :=
    (inject_Z (Z.min (videoWidth video) (videoHeight video)) * (6 # 10))%Q in
  let left := ((inject_Z (videoWidth video) - side) / 2)%Q in
  let top := ((inject_Z (videoHeight video) - side) / 2)%Q in
  let crop :=
    ImageData.mk
      (fun i j =>
         bitmapAt (mkBitmap (videoWidth video) (videoHeight video) (frame video))
                  (toLong left + i) (toLong top + j))
      (toLong side) (toLong side) in
  cropRegion s (videoWidth video) (videoHeight video) = (left, top, side, side) /\
  captureRegion s video = Normal crop /\
  exists final,
    resize16 env crop = Normal final /\
    forall p, m (toTensor final) = Normal p ->
      let playerResult := pickGesture (dataSync p) in
      let result :=
        determineWinner (gesture playerResult)
                        (computerGesture (Math_random env)) in
      snd (predictGesture s env) = Normal (Some playerResult) /\
      resolves s env = true /\
      gameResult (playRound s env) = Some result /\
      score (playRound s env) = updateScore result (score s) /\
      isPlaying (playRound s env) = false.
Proof.
  intros s env m video canvas Hcam Hplay Hm Hv Hc Hctx Hsend Hnohand Hmin
         side left top crop.
  assert (Hregion : cropRegion s (videoWidth video) (videoHeight video)
                    = (left, top, side, side)).
  { rewrite cropRegion_no_hand by assumption. reflexivity. }
  assert (Hside : 0 < toLong side) by (apply fallback_side_pos; assumption).
  assert (Hcap : captureRegion s video = Normal crop).
  { unfold captureRegion. rewrite Hregion.
    apply getImageData_Normal; assumption. }
  split; [exact Hregion |]. split; [exact Hcap |].
  destruct (resize16_Normal env crop) as (final & Hfinal & _).
  exists final. split; [exact Hfinal |].
  intros p Hp playerResult result.
  pose proof (predictGesture_ready s env m video canvas Hm Hv Hc Hctx Hsend)
    as Hready.
  rewrite Hcap in Hready. cbn [bind] in Hready.
  rewrite Hfinal in Hready. cbn [bind] in Hready.
  rewrite Hp in Hready. cbn [bind] in Hready.
  split; [exact Hready |]. split.
  - unfold resolves. now rewrite Hready.
  - apply (playRound_resolved s env _ Hcam Hplay Hready).
Qed.

(** C8, evaluated on the code.  The rectangle of STEP 3 is chosen by
    [handDetected] and [handBoundingBox] as the render that made
    [predictGesture] holds them, not by what the locator finds in the
    frame of the round.  In a round in which the locator finds no hand
    while the render still holds the box of a hand found in an earlier
    round, the rectangle read is the one of that box, not the centre
    square; what the locator found reaches the state, and with it the
    centre square is the rectangle of a later render.  When the box held
    has no width or no height the round is given up and reports no
    outcome. *)
Theorem stale_hand_box_is_cropped : forall s env m video canvas box,
  model s = Some m -> videoRef env = Some video ->
  canvasRef env = Some canvas -> context2d canvas = true ->
  hands s = true ->
  handsSend env = Normal [] ->
  handDetected s = true -> handBoundingBox s = Some box ->
  let videoWidth := videoWidth video in
  let videoHeight := videoHeight video in
  let read :=
    getImageData (mkBitmap videoWidth videoHeight (frame video))
                 (Box.x box * inject_Z videoWidth)
                 (Box.y box * inject_Z videoHeight)
                 (Box.width box * inject_Z videoWidth)
                 (Box.height box * inject_Z videoHeight) in
  cropRegion s videoWidth videoHeight = handRegion box videoWidth videoHeight /\
  captureRegion s video = read /\
  snd (predictGesture s env) =
    (do processedImageData <- read;
     do finalImageData <- resize16 env processedImageData;
     do probabilities <- m (toTensor finalImageData);
     Normal (Some (pickGesture (dataSync probabilities)))) /\
  fst (predictGesture s env) = onResults [] /\
  (forall st,
     handDetected (onResults [] st) = false /\
     handBoundingBox (onResults [] st) = None /\
     cropRegion (onResults [] st) videoWidth videoHeight
       = fallbackRegion videoWidth videoHeight) /\
  ((Box.width box == 0)%Q \/ (Box.height box == 0)%Q ->
   snd (predictGesture s env) = Abrupt IndexSizeError /\
   resolves s env = false).
Proof.
  intros s env m video canvas box Hm Hv Hc Hctx Hhands Hsend Hd Hbox
         vw vh read.
  assert (Hregion : cropRegion s vw vh = handRegion box vw vh).
  { unfold cropRegion. now rewrite Hd, Hbox. }
  assert (Hcap : captureRegion s video = read).
  { unfold captureRegion. fold vw vh. rewrite Hregion. reflexivity. }
  assert (Hsettled : snd (predictGesture s env) =
    (do processedImageData <- read;
     do finalImageData <- resize16 env processedImageData;
     do probabilities <- m (toTensor finalImageData);
     Normal (Some (pickGesture (dataSync probabilities))))).
  { rewrite (predictGesture_ready s env m video canvas); try assumption.
    - now rewrite Hcap.
    - intros _. exists []. exact Hsend. }
  split; [exact Hregion |]. split; [exact Hcap |]. split; [exact Hsettled |].
  split; [| split].
  - unfold predictGesture. rewrite Hm, Hv, Hc, Hctx, Hhands, Hsend. reflexivity.
  - intros st. repeat split.
  - intros Hzero.
    assert (Hthrow : read = Abrupt IndexSizeError).
    { subst read. apply getImageData_empty.
      destruct Hzero as [H | H]; [left | right]; apply toLong_zero, H. }
    assert (Hrej : snd (predictGesture s env) = Abrupt IndexSizeError).
    { rewrite Hsettled, Hthrow. reflexivity. }
    split; [exact Hrej |]. unfold resolves. now rewrite Hrej.
Qed.

(** After a round in which the locator reported [Examples.openHand], one
    in which it finds no hand. *)
Lemma stale_hand_box_is_cropped_witness :
  let s := Examples.stateOpenHand in
  let env := Examples.browser320 in
  let box := boundingBox Examples.openHand in
  let read :=
    getImageData (mkBitmap 320 240 (frame Examples.video320))
                 (Box.x box * inject_Z 320) (Box.y box * inject_Z 240)
                 (Box.width box * inject_Z 320) (Box.height box * inject_Z 240) in
  cropRegion s 320 240 = handRegion box 320 240 /\
  captureRegion s Examples.video320 = read /\
  snd (predictGesture s env) =
    (do processedImageData <- read;
     do finalImageData <- resize16 env processedImageData;
     do probabilities <- Examples.paperClassifier (toTensor finalImageData);
     Normal (Some (pickGesture (dataSync probabilities)))) /\
  fst (predictGesture s env) = onResults [] /\
  (forall st,
     handDetected (onResults [] st) = false /\
     handBoundingBox (onResults [] st) = None /\
     cropRegion (onResults [] st) 320 240 = fallbackRegion 320 240) /\
  ((Box.width box == 0)%Q \/ (Box.height box == 0)%Q ->
   snd (predictGesture s env) = Abrupt IndexSizeError /\
   resolves s env = false).
Proof.
  apply (stale_hand_box_is_cropped Examples.stateOpenHand Examples.browser320
           Examples.paperClassifier Examples.video320 (mkCanvas true)
           (boundingBox Examples.openHand)).
  - reflexivity.
  - reflexivity.
  - reflexivity.
  - reflexivity.
  - reflexivity.
  - reflexivity.
  - reflexivity.
  - reflexivity.
Defined.

(** The same two rounds in pixels: the locator finds no hand in the
    second frame, and the rectangle read is the one around the hand of the
    first frame, 192 by 144 pixels at (144, 48), where the centre square
    is 144 by 144 at (88, 48).  And after a hand seen edge-on, whose box
    has no width, the round with no hand in the frame is given up, where
    the centre square would have been classified. *)
Lemma stale_hand_box_rounds :
  handsSend Examples.browser320 = Normal [] /\
  pixelRegion (cropRegion Examples.stateOpenHand 320 240) = (144, 48, 192, 144) /\
  pixelRegion (fallbackRegion 320 240) = (88, 48, 144, 144) /\
  pixelRegion (cropRegion (fst (predictGesture Examples.stateOpenHand
                                               Examples.browser320)
                               Examples.stateOpenHand) 320 240)
    = (88, 48, 144, 144) /\
  snd (predictGesture Examples.stateThinHand Examples.browser320)
    = Abrupt IndexSizeError /\
  resolves Examples.stateThinHand Examples.browser320 = false /\
  gameResult (playRound Examples.stateThinHand Examples.browser320) = None /\
  snd (predictGesture (withoutHand Examples.stateThinHand) Examples.browser320)
    = Normal (Some (mkPrediction paper (7 # 10))).
Proof. repeat split; vm_compute; reflexivity. Qed.

(** ** The computer's draw *)

Lemma randomValue_unit : forall r, (0 <= randomValue r)%Q /\ (randomValue r < 1)%Q.
Proof.
  intros [n gap]. unfold randomValue, Qle, Qlt. simpl.
  destruct n as [| p]; simpl; lia.
Qed.

(** The index [Math.floor(Math.random() * CLASSES.length)] is 0, 1 or 2, so
    that the computer's gesture is an entry of [CLASSES]. *)
Lemma computerGesture_defined : forall r,
  exists i,
    Qfloor (randomValue r * inject_Z (Z.of_nat (List.length CLASSES))) = Z.of_nat i /\
    nth_error CLASSES i = Some (computerGesture r).
Proof.
  intros r. destruct (randomValue_unit r) as [H0 H1].
  set (k := Qfloor (randomValue r * inject_Z (Z.of_nat (List.length CLASSES)))).
  assert (Hlo : 0 <= k).
  { change 0 with (Qfloor 0). apply Qfloor_resp_le.
    apply Qmult_le_0_compat; [exact H0 | discriminate]. }
  assert (Hhi : k < 3).
  { assert (Hk : (inject_Z k < 3)%Q).
    { eapply Qle_lt_trans; [apply Qfloor_le |].
      change (3%Q) with (1 * inject_Z 3)%Q.
      apply Qmult_lt_r; [reflexivity | exact H1]. }
    unfold Qlt in Hk. simpl in Hk. lia. }
  exists (Z.to_nat k). split; [lia |].
  unfold computerGesture. fold k. unfold at_index.
  destruct (Z.ltb_spec k 0); [lia |].
  assert (Hcases : k = 0 \/ k = 1 \/ k = 2) by lia.
  destruct Hcases as [-> | [-> | ->]]; reflexivity.
Qed.

(** * Further properties of the code *)

(** ** The rules seen from both sides *)

(** [determineWinner] is a fair rule: a win of one side is a loss of the
    other and a tie is a tie for both; the object [wins] goes round the
    three gestures, so that each gesture beats exactly one gesture and
    loses to exactly one. *)
Theorem determineWinner_mirror : forall a b : Gesture,
  (determineWinner a b = win <-> determineWinner b a = lose) /\
  (determineWinner a b = tie <-> determineWinner b a = tie) /\
  (determineWinner a b = win <-> b = wins a) /\
  (determineWinner a b = lose <-> a = wins b) /\
  wins (wins (wins a)) = a /\
  wins a <> a.
Proof.
  intros [] []; cbv [determineWinner Gesture_eqb wins];
    repeat split; try reflexivity; intros H; try discriminate H;
    congruence.
Qed.

(** ** The computer's draw, by thirds *)

(** The computer plays rock when [Math.random()] is below 1/3, paper when
    it is between 1/3 and 2/3 and scissors when it is above 2/3, in each
    case by the margin of a billionth at least: each gesture has a third
    of the interval [0, 1), up to what the rounding of the product may
    move at the two thresholds. *)
Theorem computerGesture_by_thirds : forall r : Random,
  (randomValue r <= (1 # 3) - margin -> computerGesture r = rock)%Q /\
  ((1 # 3) + margin <= randomValue r -> randomValue r <= (2 # 3) - margin ->
   computerGesture r = paper)%Q /\
  ((2 # 3) + margin <= randomValue r -> computerGesture r = scissors)%Q.
Proof.
  intros r.
  destruct (computerGesture_defined r) as (i & Hk & Hg).
  pose proof (Qfloor_le (randomValue r * inject_Z (Z.of_nat (List.length CLASSES))))
    as Hlo.
  pose proof (Qlt_floor (randomValue r * inject_Z (Z.of_nat (List.length CLASSES))))
    as Hhi.
  rewrite Hk in Hlo, Hhi.
  assert (Hi : (i < 3)%nat).
  { change 3%nat with (List.length CLASSES).
    apply nth_error_Some. rewrite Hg. discriminate. }
  unfold margin.
  destruct i as [| [| [| i]]]; [| | | lia]; simpl in Hg;
    injection Hg as Hg; rewrite <- Hg;
    cbn [List.length CLASSES Z.of_nat Pos.of_succ_nat Pos.succ Z.add Pos.add]
      in Hlo, Hhi;
    unfold inject_Z in Hlo, Hhi;
    (split; [| split]); intros; try reflexivity; exfalso; lra.
Qed.

(** ** The box around the hand *)

Section BoundingBox.

Local Open Scope Q_scope.

Lemma landmarkBounds_fold : forall landmarks minX minY maxX maxY,
  let '(minX', minY', maxX', maxY') :=
    fold_left widen landmarks (minX, minY, maxX, maxY) in
  minX' <= minX /\ minY' <= minY /\ maxX <= maxX' /\ maxY <= maxY' /\
  Forall (boundsHold (minX', minY', maxX', maxY')) landmarks /\
  (0 <= minX -> 0 <= minY -> maxX <= 1 -> maxY <= 1 ->
   Forall inFrame landmarks ->
   boundsInFrame (minX', minY', maxX', maxY')).
Proof.
  induction landmarks as [| lm landmarks IH]; intros minX minY maxX maxY.
  - simpl. repeat split; auto using Qle_refl; try lra.
  - simpl.
    specialize (IH (Qmin minX (Landmark.x lm)) (Qmin minY (Landmark.y lm))
                   (Qmax maxX (Landmark.x lm)) (Qmax maxY (Landmark.y lm))).
    destruct (fold_left widen landmarks _) as [[[minX' minY'] maxX'] maxY'].
    destruct IH as (H1 & H2 & H3 & H4 & Hall & Hframe).
    pose proof (Q.le_min_l minX (Landmark.x lm)).
    pose proof (Q.le_min_r minX (Landmark.x lm)).
    pose proof (Q.le_min_l minY (Landmark.y lm)).
    pose proof (Q.le_min_r minY (Landmark.y lm)).
    pose proof (Q.le_max_l maxX (Landmark.x lm)).
    pose proof (Q.le_max_r maxX (Landmark.x lm)).
    pose proof (Q.le_max_l maxY (Landmark.y lm)).
    pose proof (Q.le_max_r maxY (Landmark.y lm)).
    split; [lra |]. split; [lra |]. split; [lra |]. split; [lra |]. split.
    + constructor; [| exact Hall]. unfold boundsHold. lra.
    + intros Hx Hy HX HY Hin. inversion Hin as [| ? ? [Hlx Hly] Hrest]; subst.
      apply Hframe; try assumption.
      * apply Q.min_glb; lra.
      * apply Q.min_glb; lra.
      * apply Q.max_lub; lra.
      * apply Q.max_lub; lra.
Qed.

(** For a hand with a keypoint, all keypoints inside the frame, the box
    that [onResults] stores starts inside the frame, is no wider and no
    higher than the frame, has no negative side, and holds every
    keypoint. *)
Theorem boundingBox_holds_landmarks : forall landmarks,
  landmarks <> [] ->
  Forall inFrame landmarks ->
  let box := boundingBox landmarks in
  0 <= Box.x box <= 1 /\ 0 <= Box.y box <= 1 /\
  0 <= Box.width box <= 1 /\ 0 <= Box.height box <= 1 /\
  Forall (inBox box) landmarks.
Proof.
  intros landmarks Hne Hin box. subst box. unfold boundingBox, landmarkBounds.
  change (fold_left _ landmarks (1, 1, 0, 0))
    with (fold_left widen landmarks (1, 1, 0, 0)).
  pose proof (landmarkBounds_fold landmarks 1 1 0 0) as H.
  destruct (fold_left widen landmarks (1, 1, 0, 0))
    as [[[minX minY] maxX] maxY].
  destruct H as (H1 & H2 & H3 & H4 & Hall & Hframe).
  assert (Hf : boundsInFrame (minX, minY, maxX, maxY)) by (apply Hframe; auto; lra).
  destruct Hf as (Hx0 & Hy0 & Hx1 & Hy1).
  assert (Hw : minX <= maxX /\ minY <= maxY).
  { destruct landmarks as [| lm rest]; [congruence |].
    inversion Hall as [| ? ? [Hlx Hly] _]; subst. lra. }
  destruct Hw as [Hwx Hwy]. cbv zeta. cbn [Box.x Box.y Box.width Box.height].
  set (bx := Qmax 0 (minX - (1 # 10) * (maxX - minX))).
  set (by_ := Qmax 0 (minY - (1 # 10) * (maxY - minY))).
  set (bw := Qmin 1 (maxX - minX + 2 * (1 # 10) * (maxX - minX))).
  set (bh := Qmin 1 (maxY - minY + 2 * (1 # 10) * (maxY - minY))).
  assert (Ex : bx == 0 /\ minX - (1 # 10) * (maxX - minX) <= 0 \/
               bx == minX - (1 # 10) * (maxX - minX) /\ 0 <= bx).
  { unfold bx.
    destruct (Q.max_spec 0 (minX - (1 # 10) * (maxX - minX)))
      as [[? E] | [? E]]; [right | left]; split; lra. }
  assert (Ey : by_ == 0 /\ minY - (1 # 10) * (maxY - minY) <= 0 \/
               by_ == minY - (1 # 10) * (maxY - minY) /\ 0 <= by_).
  { unfold by_.
    destruct (Q.max_spec 0 (minY - (1 # 10) * (maxY - minY)))
      as [[? E] | [? E]]; [right | left]; split; lra. }
  assert (Ew : bw == 1 /\ 1 <= maxX - minX + 2 * (1 # 10) * (maxX - minX) \/
               bw == maxX - minX + 2 * (1 # 10) * (maxX - minX) /\ bw <= 1).
  { unfold bw.
    destruct (Q.min_spec 1 (maxX - minX + 2 * (1 # 10) * (maxX - minX)))
      as [[? E] | [? E]]; [left | right]; split; lra. }
  assert (Eh : bh == 1 /\ 1 <= maxY - minY + 2 * (1 # 10) * (maxY - minY) \/
               bh == maxY - minY + 2 * (1 # 10) * (maxY - minY) /\ bh <= 1).
  { unfold bh.
    destruct (Q.min_spec 1 (maxY - minY + 2 * (1 # 10) * (maxY - minY)))
      as [[? E] | [? E]]; [left | right]; split; lra. }
  clearbody bx by_ bw bh.
  split; [destruct Ex as [[? ?] | [? ?]]; lra |].
  split; [destruct Ey as [[? ?] | [? ?]]; lra |].
  split; [destruct Ew as [[? ?] | [? ?]]; lra |].
  split; [destruct Eh as [[? ?] | [? ?]]; lra |].
  eapply Forall_impl; [| exact Hall].
  intros lm [Hlx Hly]. unfold inBox. cbn [Box.x Box.y Box.width Box.height].
  destruct Ex as [[? ?] | [? ?]], Ey as [[? ?] | [? ?]],
           Ew as [[? ?] | [? ?]], Eh as [[? ?] | [? ?]];
    repeat split; lra.
Qed.

End BoundingBox.

Lemma boundingBox_holds_landmarks_witness :
  let box := boundingBox Examples.openHand in
  (0 <= Box.x box <= 1)%Q /\ (0 <= Box.y box <= 1)%Q /\
  (0 <= Box.width box <= 1)%Q /\ (0 <= Box.height box <= 1)%Q /\
  Forall (inBox box) Examples.openHand.
Proof.
  apply (boundingBox_holds_landmarks Examples.openHand).
  - discriminate.
  - unfold Examples.openHand, inFrame.
    repeat constructor; simpl; unfold Qle; simpl; lia.
Defined.

(** ** The hand held by the component *)

Lemma settle_hand : forall render env s1,
  let s' := playRound_settle render env s1 in
  let s2 := fst (predictGesture render env) s1 in
  handDetected s' = handDetected s2 /\
  handBoundingBox s' = handBoundingBox s2 /\
  handLandmarks s' = handLandmarks s2.
Proof.
  intros render env s1. unfold playRound_settle.
  destruct (predictGesture render env) as [updates settled].
  destruct settled as [[playerResult |] | e]; simpl; auto.
Qed.

Lemma onResults_handConsistent : forall results st,
  handConsistent (onResults results st).
Proof. intros [| landmarks rest] st; [left | right]; simpl; auto. Qed.

Lemma step_handConsistent : forall ss ev,
  handConsistent (app ss) -> handConsistent (app (step ss ev)).
Proof.
  intros ss ev H. destruct ev as [m | | | | t | env]; try exact H.
  - destruct (trigger_cases ss t) as [-> | (_ & _ & ->)]; exact H.
  - simpl. destruct (inFlight ss) as [| render others]; [exact H |]. simpl.
    destruct (settle_hand render env (app ss)) as (Hd & Hb & Hl).
    assert (H2 : handConsistent (fst (predictGesture render env) (app ss))).
    { destruct (predictGesture_updates render env) as [-> | [results ->]];
        [exact H | apply onResults_handConsistent]. }
    unfold handConsistent. rewrite Hd, Hb, Hl. exact H2.
Qed.

(** Over any run of the session the hand held by the component hangs
    together: [handDetected] is set exactly when a box is held, the box is
    the padded box of the keypoints held, and without a hand no keypoints
    are held.  So the test [handDetected && handBoundingBox] of STEP 3 is
    the test [handDetected]. *)
Theorem hand_state_consistent : forall events videoWidth videoHeight,
  let s := app (run events initialSession) in
  handConsistent s /\
  (handDetected s = true <-> handBoundingBox s <> None) /\
  cropRegion s videoWidth videoHeight =
    if handDetected s
    then handRegion (boundingBox (handLandmarks s)) videoWidth videoHeight
    else fallbackRegion videoWidth videoHeight.
Proof.
  intros events vw vh s.
  assert (H : handConsistent s).
  { subst s. induction events as [| ev events IH] using rev_ind.
    - left. repeat split.
    - rewrite run_app. apply step_handConsistent, IH. }
  split; [exact H |].
  unfold cropRegion.
  destruct H as [(Hd & Hb & _) | (Hd & Hb)]; rewrite Hd, Hb;
    split; try reflexivity; split; congruence.
Qed.

(** ** The result on display *)

Lemma step_resultConsistent : forall ss ev,
  resultConsistent (app ss) -> resultConsistent (app (step ss ev)).
Proof.
  intros ss ev H. destruct ev as [m | | | | t | env]; try exact H.
  - destruct (trigger_cases ss t) as [-> | (_ & _ & ->)]; [exact H |].
    intros result Hr. discriminate Hr.
  - simpl. destruct (inFlight ss) as [| render others]; [exact H |]. simpl.
    pose proof (playRound_settle_cases render env (app ss)) as (_ & _ & Hc).
    destruct (snd (predictGesture render env)) as [[playerResult |] | e];
      cbv zeta in Hc.
    + destruct Hc as (Hr & _ & Hp & Hch). intros result Hres.
      rewrite Hr in Hres. injection Hres as <-. eauto.
    + destruct Hc as (_ & Hr & Hp & Hch). intros result Hres.
      rewrite Hr in Hres. destruct (H result Hres) as (p & c & ? & ? & ?).
      exists p, c. rewrite Hp, Hch. auto.
    + destruct Hc as (_ & Hr & Hp & Hch). intros result Hres.
      rewrite Hr in Hres. destruct (H result Hres) as (p & c & ? & ? & ?).
      exists p, c. rewrite Hp, Hch. auto.
Qed.

(** Over any run of the session, whenever a result is on display so are
    the player's prediction and the computer's choice, and the result is
    [determineWinner] of these two: the page never shows a result that
    disagrees with the gestures it shows. *)
Theorem displayed_result_consistent : forall events,
  resultConsistent (app (run events initialSession)).
Proof.
  induction events as [| ev events IH] using rev_ind.
  - intros result Hr. discriminate Hr.
  - rewrite run_app. apply step_resultConsistent, IH.
Qed.

(** ** The score line of the log *)

Lemma loggedScore_updateScore : forall render result,
  loggedScore render result = updateScore result (score render).
Proof.
  intros render result. unfold loggedScore, updateScore.
  destruct (score render) as [p c t].
  destruct result; cbn; rewrite !Z.add_0_r; reflexivity.
Qed.

Lemma updateScore_injective : forall result a b,
  updateScore result a = updateScore result b -> a = b.
Proof.
  intros result [pa ca ta] [pb cb tb] H.
  destruct result; cbn in H; injection H as H1 H2 H3; f_equal; lia.
Qed.

(** The score line that a resolved round prints is the score of the
    render that called [playRound], with the outcome of the round added;
    the score that the round stores is the score of the state, with the
    outcome added.  The two are the same exactly when the state still has
    the score of the calling render, that is, when no other round has
    scored since that render. *)
Theorem logged_score_of_calling_render :
  forall render env s1 playerResult,
  snd (predictGesture render env) = Normal (Some playerResult) ->
  let result :=
    determineWinner (gesture playerResult) (computerGesture (Math_random env)) in
  loggedScore render result = updateScore result (score render) /\
  score (playRound_settle render env s1) = updateScore result (score s1) /\
  (loggedScore render result = score (playRound_settle render env s1) <->
   score render = score s1).
Proof.
  intros render env s1 pr Hpr result.
  pose proof (playRound_settle_cases render env s1) as (_ & _ & Hc).
  rewrite Hpr in Hc. cbv zeta in Hc. destruct Hc as (_ & Hscore & _).
  fold result in Hscore.
  split; [apply loggedScore_updateScore |]. split; [exact Hscore |].
  rewrite Hscore, loggedScore_updateScore. split.
  - apply updateScore_injective.
  - intros ->. reflexivity.
Qed.

Lemma logged_score_of_calling_render_witness :
  let render := Examples.readyState in
  let s1 := setGameResult None (setIsPlaying true Examples.readyState) in
  let result :=
    determineWinner (gesture (mkPrediction paper (7 # 10)))
                    (computerGesture (Math_random Examples.browser320)) in
  loggedScore render result = updateScore result (score render) /\
  score (playRound_settle render Examples.browser320 s1)
    = updateScore result (score s1) /\
  (loggedScore render result
     = score (playRound_settle render Examples.browser320 s1) <->
   score render = score s1).
Proof.
  apply (logged_score_of_calling_render Examples.readyState Examples.browser320
           (setGameResult None (setIsPlaying true Examples.readyState))
           (mkPrediction paper (7 # 10))).
  vm_compute. reflexivity.
Defined.

(** ** The camera switched off *)

Lemma updates_camera : forall render env v st,
  fst (predictGesture render env) (setIsCameraActive v st)
    = setIsCameraActive v (fst (predictGesture render env) st).
Proof.
  intros render env v st.
  destruct (predictGesture_updates render env) as [-> | [results ->]];
    [reflexivity |].
  destruct results; reflexivity.
Qed.

Lemma settle_camera : forall render env v st,
  playRound_settle render env (setIsCameraActive v st)
    = setIsCameraActive v (playRound_settle render env st).
Proof.
  intros render env v st. unfold playRound_settle.
  pose proof (updates_camera render env v st) as H.
  destruct (predictGesture render env) as [updates settled]. simpl in H.
  rewrite H. destruct settled as [[playerResult |] | e]; reflexivity.
Qed.

(** Once [isCameraActive] is false in the render that the callbacks come
    from, no trigger starts a round, however many come; so it is after
    [stopCamera] and the next render.  Until that render is committed a
    call of the callback at hand still starts a round.  A round in flight
    is not cancelled by [stopCamera]: it settles, and scores, as it would
    have, stopping and settling in either order giving the same
    component.  And [stopCamera] itself changes nothing when the video
    element or its stream is missing. *)
Theorem camera_off_after_rerender : forall c triggers k env pg,
  (isCameraActive (rendered c) = false ->
   happenAll (map Calls triggers) c = c) /\
  happenAll (map Calls triggers)
            (happen (happen c (SetsCameraActive false)) Rerender)
    = happen (happen c (SetsCameraActive false)) Rerender /\
  (isCameraActive (rendered c) = true -> isPlaying (rendered c) = false ->
   begun (happen (happen c (SetsCameraActive false)) (Calls RoundRequest))
     = begun c + 1) /\
  happen (happen c (SetsCameraActive false)) (Settles k env)
    = happen (happen c (Settles k env)) (SetsCameraActive false) /\
  (videoMounted pg = false \/ srcObject pg = None -> stopCamera pg = pg) /\
  (videoMounted pg = true -> srcObject pg <> None ->
   app (session (stopCamera pg)) = setIsCameraActive false (app (session pg)) /\
   srcObject (stopCamera pg) = Some (mkStream false)).
Proof.
  intros c triggers k env pg.
  assert (Hoff : forall c', isCameraActive (rendered c') = false ->
                            happenAll (map Calls triggers) c' = c').
  { intros c' Hc'. induction triggers as [| t' triggers IH]; [reflexivity |].
    cbn [map happenAll fold_left]. rewrite calls_dropped by (left; exact Hc').
    exact IH. }
  split; [apply Hoff |]. split; [apply Hoff; reflexivity |].
  split; [| split; [| split]].
  - intros Hcam Hplay.
    rewrite calls_started by assumption. reflexivity.
  - cbn [happen withCurrent pending current rendered begun reported].
    destruct (nth_error (pending c) k) as [render |]; [| reflexivity].
    cbn [withCurrent pending current rendered begun reported].
    rewrite settle_camera. reflexivity.
  - unfold stopCamera. intros [-> | ->]; [reflexivity |].
    destruct (videoMounted pg); reflexivity.
  - unfold stopCamera. intros -> Hsrc.
    destruct (srcObject pg); [split; reflexivity | congruence].
Qed.

(** ** The centre square stays in the frame *)

Lemma toLong_nonneg : forall q,
  (0 <= q)%Q -> toLong q = Qfloor q /\ 0 <= Qfloor q /\ (inject_Z (Qfloor q) <= q)%Q.
Proof.
  intros q Hq. unfold toLong.
  assert (H0 : Qle_bool 0 q = true) by (now apply Qle_bool_iff).
  rewrite H0. split; [reflexivity |]. split; [| apply Qfloor_le].
  change 0 with (Qfloor 0). now apply Qfloor_resp_le.
Qed.

(** For a frame of any size the centre square of STEP 3 lies inside the
    frame, also once its corner and its side are cut to whole pixels: every
    pixel that the fallback crop reads is a pixel of the frame, none is the
    transparent filling that [getImageData] gives outside the canvas. *)
Theorem fallback_inside_frame : forall video i j,
  0 <= videoWidth video -> 0 <= videoHeight video ->
  let '(centerX, centerY, centerSize, _) :=
    fallbackRegion (videoWidth video) (videoHeight video) in
  0 <= toLong centerX /\ 0 <= toLong centerY /\ 0 <= toLong centerSize /\
  toLong centerX + toLong centerSize <= videoWidth video /\
  toLong centerY + toLong centerSize <= videoHeight video /\
  (0 <= i < toLong centerSize -> 0 <= j < toLong centerSize ->
   bitmapAt (mkBitmap (videoWidth video) (videoHeight video) (frame video))
            (toLong centerX + i) (toLong centerY + j)
   = frame video (toLong centerX + i) (toLong centerY + j)).
Proof.
  intros video i j Hw Hh. unfold fallbackRegion.
  set (W := videoWidth video) in *. set (H := videoHeight video) in *.
  set (m := inject_Z (Z.min W H)).
  assert (Hm0 : (0 <= m)%Q).
  { unfold m. change (inject_Z 0 <= inject_Z (Z.min W H))%Q.
    rewrite <- Zle_Qle. lia. }
  assert (HmW : (m <= inject_Z W)%Q).
  { unfold m. rewrite <- Zle_Qle. lia. }
  assert (HmH : (m <= inject_Z H)%Q).
  { unfold m. rewrite <- Zle_Qle. lia. }
  set (side := (m * (6 # 10))%Q).
  set (cx := ((inject_Z W - side) / 2)%Q).
  set (cy := ((inject_Z H - side) / 2)%Q).
  assert (Hside : (0 <= side)%Q /\ (side <= m)%Q) by (unfold side; split; lra).
  assert (Ecx : (cx == (inject_Z W - side) * (1 # 2))%Q) by reflexivity.
  assert (Ecy : (cy == (inject_Z H - side) * (1 # 2))%Q) by reflexivity.
  assert (Hcx : (0 <= cx)%Q /\ (cx + side <= inject_Z W)%Q) by (split; lra).
  assert (Hcy : (0 <= cy)%Q /\ (cy + side <= inject_Z H)%Q) by (split; lra).
  destruct (toLong_nonneg side (proj1 Hside)) as (-> & Hs0 & Hs).
  destruct (toLong_nonneg cx (proj1 Hcx)) as (-> & Hx0 & Hx).
  destruct (toLong_nonneg cy (proj1 Hcy)) as (-> & Hy0 & Hy).
  assert (HxW : Qfloor cx + Qfloor side <= W).
  { rewrite Zle_Qle, inject_Z_plus. lra. }
  assert (HyH : Qfloor cy + Qfloor side <= H).
  { rewrite Zle_Qle, inject_Z_plus. lra. }
  repeat split; try assumption.
  intros Hi Hj. unfold bitmapAt. cbn [bitmapWidth bitmapHeight colour].
  destruct (Z.leb_spec 0 (Qfloor cx + i)); [| lia].
  destruct (Z.ltb_spec (Qfloor cx + i) W); [| lia].
  destruct (Z.leb_spec 0 (Qfloor cy + j)); [| lia].
  destruct (Z.ltb_spec (Qfloor cy + j) H); [| lia].
  reflexivity.
Qed.

Lemma fallback_inside_frame_witness :
  let '(centerX, centerY, centerSize, _) := fallbackRegion 320 240 in
  0 <= toLong centerX /\ 0 <= toLong centerY /\ 0 <= toLong centerSize /\
  toLong centerX + toLong centerSize <= 320 /\
  toLong centerY + toLong centerSize <= 240 /\
  (0 <= 100 < toLong centerSize -> 0 <= 143 < toLong centerSize ->
   bitmapAt (mkBitmap 320 240 (frame Examples.video320))
            (toLong centerX + 100) (toLong centerY + 143)
   = frame Examples.video320 (toLong centerX + 100) (toLong centerY + 143)).
Proof.
  apply (fallback_inside_frame Examples.video320 100 143).
  - vm_compute. discriminate.
  - vm_compute. discriminate.
Defined.

(** ** File names *)

Lemma isPrefix_spec : forall p s,
  isPrefix p s = true <-> exists t, s = p ++ t.
Proof.
  induction p as [| a p IH]; intros s; simpl.
  - split; [intros _; exists s; reflexivity | reflexivity].
  - destruct s as [| b s].
    + split; [discriminate | intros [t Ht]; discriminate Ht].
    + rewrite andb_true_iff, Ascii.eqb_eq, IH. split.
      * intros [-> [t ->]]. exists t. reflexivity.
      * intros [t Ht]. injection Ht as -> ->. split; [reflexivity | eauto].
Qed.

Lemma list_ascii_of_string_append : forall a b : string,
  list_ascii_of_string (a ++ b) = list_ascii_of_string a ++ list_ascii_of_string b.
Proof. induction a as [| c a IH]; intros b; simpl; [reflexivity | now rewrite IH]. Qed.

(** [endsWith] holds exactly of the strings that are a stem followed by the
    suffix. *)
Lemma endsWith_spec : forall s suffix : string,
  endsWith s suffix = true <-> exists stem : string, s = (stem ++ suffix)%string.
Proof.
  intros s suffix. unfold endsWith. rewrite isPrefix_spec. split.
  - intros [t Ht]. exists (string_of_list_ascii (rev t)).
    apply (f_equal (@rev _)) in Ht. rewrite rev_involutive, rev_app_distr in Ht.
    rewrite rev_involutive in Ht.
    rewrite <- (string_of_list_ascii_of_string s), Ht.
    rewrite <- (string_of_list_ascii_of_string suffix) at 2.
    generalize (rev t) (list_ascii_of_string suffix).
    induction l as [| c l IH]; intros l'; simpl; [reflexivity | now rewrite IH].
  - intros [stem ->]. exists (rev (list_ascii_of_string stem)).
    now rewrite list_ascii_of_string_append, rev_app_distr.
Qed.

(** ** The shuffle of the training script *)

Lemma randomIndex_bounds : forall r n,
  0 < n -> 0 <= Qfloor (randomValue r * inject_Z n) < n.
Proof.
  intros r n Hn. destruct (randomValue_unit r) as [H0 H1].
  assert (Hn' : (0 < inject_Z n)%Q).
  { change (inject_Z 0 < inject_Z n)%Q. now rewrite <- Zlt_Qlt. }
  split.
  - change 0 with (Qfloor 0). apply Qfloor_resp_le.
    apply Qmult_le_0_compat; [exact H0 | now apply Qlt_le_weak].
  - assert (Hk : (inject_Z (Qfloor (randomValue r * inject_Z n)) < inject_Z n)%Q).
    { eapply Qle_lt_trans; [apply Qfloor_le |].
      rewrite <- (Qmult_1_l (inject_Z n)) at 2.
      apply Qmult_lt_r; assumption. }
    now rewrite <- Zlt_Qlt in Hk.
Qed.

(** The index that [shuffle] draws for position [i] is at most [i]. *)
Lemma shuffle_index_bounds : forall r i,
  (Z.to_nat (Qfloor (randomValue r * inject_Z (Z.of_nat i + 1))) <= i)%nat.
Proof.
  intros r i. pose proof (randomIndex_bounds r (Z.of_nat i + 1)). lia.
Qed.

Lemma update_length : forall (A : Type) k (v : A) array,
  List.length (FastTrain.update k v array) = List.length array.
Proof.
  intros A k v array. revert k.
  induction array as [| a array IH]; intros [| k]; simpl; auto.
Qed.

Lemma update_Permutation : forall (A : Type) (x b : A) array j,
  nth_error array j = Some b ->
  Permutation (x :: array) (b :: FastTrain.update j x array).
Proof.
  intros A x b array. induction array as [| a array IH]; intros [| j] Hj;
    simpl in *; try discriminate.
  - injection Hj as ->. apply perm_swap.
  - eapply perm_trans; [apply perm_swap |].
    eapply perm_trans; [apply perm_skip, IH, Hj |]. apply perm_swap.
Qed.

Lemma swap_Permutation : forall (A : Type) i j (array : list A),
  Permutation array (FastTrain.swap i j array).
Proof.
  intros A i j array. unfold FastTrain.swap.
  destruct (nth_error array i) as [ai |] eqn:Hi; [| reflexivity].
  destruct (nth_error array j) as [aj |] eqn:Hj; [| reflexivity].
  revert i j Hi Hj.
  induction array as [| x array IH]; intros [| i] [| j] Hi Hj;
    simpl in *; try discriminate.
  - injection Hi as ->. injection Hj as ->. reflexivity.
  - injection Hi as ->. now apply update_Permutation.
  - injection Hj as ->. now apply update_Permutation.
  - apply perm_skip. now apply IH.
Qed.

Lemma shuffle_loop_Permutation : forall (A : Type) random i k (array : list A),
  Permutation array (FastTrain.shuffle_loop i k random array).
Proof.
  intros A random. induction i as [| i IH]; intros k array; simpl.
  - reflexivity.
  - eapply perm_trans; [apply swap_Permutation | apply IH].
Qed.

(** [shuffle] only reorders: whatever [Math.random] returns, the shuffled
    array holds the same items, each as many times as before, and has the
    same length; an array of at most one item is left as it is. *)
Theorem shuffle_is_permutation : forall (A : Type) random (array : list A),
  Permutation array (FastTrain.shuffle random array) /\
  List.length (FastTrain.shuffle random array) = List.length array /\
  ((List.length array <= 1)%nat -> FastTrain.shuffle random array = array).
Proof.
  intros A random array.
  assert (H : Permutation array (FastTrain.shuffle random array))
    by apply shuffle_loop_Permutation.
  split; [exact H |]. split.
  - symmetry. now apply Permutation_length.
  - intros Hlen. unfold FastTrain.shuffle.
    replace (List.length array - 1)%nat with 0%nat by lia. reflexivity.
Qed.

(** ** The items of the training script *)

Lemma fold_pushFile : forall className i files dataItems,
  fold_left (FastTrain.pushFile className i) files dataItems
    = dataItems ++ pngItems className i files.
Proof.
  intros className i files. unfold pngItems.
  induction files as [| file files IH]; intros dataItems; simpl.
  - now rewrite app_nil_r.
  - rewrite IH. unfold FastTrain.pushFile.
    destruct (isPng file); simpl; [now rewrite <- app_assoc | reflexivity].
Qed.

(** The items that the training script collects: when the three class
    folders exist, the PNG files of rock, then of paper, then of scissors,
    each in the order of its listing and with the label 0, 1 or 2 of its
    class, every other file being left out; when a folder is missing, the
    script throws for the first missing one, whatever the others hold. *)
Theorem dataItems_collected : forall ds : Dataset,
  FastTrain.collect ds FastTrain.CLASSES 0 [] =
    match ds "rock"%string, ds "paper"%string, ds "scissors"%string with
    | Some rocks, Some papers, Some scissorss =>
        Success (pngItems "rock" 0 rocks ++ pngItems "paper" 1 papers
                 ++ pngItems "scissors" 2 scissorss)
    | None, _, _ => Failure (FolderNotFound "rock")
    | Some _, None, _ => Failure (FolderNotFound "paper")
    | Some _, Some _, None => Failure (FolderNotFound "scissors")
    end /\
  forall dataItems item,
    FastTrain.collect ds FastTrain.CLASSES 0 [] = Success dataItems ->
    In item dataItems ->
    exists listing i stem,
      ds (folder (FastTrain.path item)) = Some listing /\
      In (fileName (FastTrain.path item)) listing /\
      fileName (FastTrain.path item) = (stem ++ ".png")%string /\
      nth_error FastTrain.CLASSES i = Some (folder (FastTrain.path item)) /\
      FastTrain.label item = Z.of_nat i.
Proof.
  intros ds.
  assert (Hform : FastTrain.collect ds FastTrain.CLASSES 0 [] =
    match ds "rock"%string, ds "paper"%string, ds "scissors"%string with
    | Some rocks, Some papers, Some scissorss =>
        Success (pngItems "rock" 0 rocks ++ pngItems "paper" 1 papers
                 ++ pngItems "scissors" 2 scissorss)
    | None, _, _ => Failure (FolderNotFound "rock")
    | Some _, None, _ => Failure (FolderNotFound "paper")
    | Some _, Some _, None => Failure (FolderNotFound "scissors")
    end).
  { simpl. destruct (ds "rock"%string) as [rocks |]; [| reflexivity].
    destruct (ds "paper"%string) as [papers |]; [| reflexivity].
    destruct (ds "scissors"%string) as [scissorss |]; [| reflexivity].
    rewrite !fold_pushFile. simpl. now rewrite <- app_assoc. }
  split; [exact Hform |].
  intros dataItems item Hok Hin. rewrite Hform in Hok.
  destruct (ds "rock"%string) as [rocks |] eqn:Hr; [| discriminate].
  destruct (ds "paper"%string) as [papers |] eqn:Hp; [| discriminate].
  destruct (ds "scissors"%string) as [scissorss |] eqn:Hs; [| discriminate].
  injection Hok as <-.
  assert (Hitem : forall className i files,
            In item (pngItems className i files) ->
            folder (FastTrain.path item) = className /\
            FastTrain.label item = i /\
            In (fileName (FastTrain.path item)) files /\
            exists stem, fileName (FastTrain.path item) = (stem ++ ".png")%string).
  { intros className i files H. unfold pngItems in H.
    apply in_map_iff in H. destruct H as (file & <- & Hfile).
    apply filter_In in Hfile. destruct Hfile as [Hfile Hpng].
    simpl. repeat split; auto. now apply endsWith_spec. }
  apply in_app_or in Hin. destruct Hin as [Hin | Hin];
    [| apply in_app_or in Hin; destruct Hin as [Hin | Hin]];
    apply Hitem in Hin; destruct Hin as (Hf & Hl & Hfile & stem & Hstem);
    rewrite Hf, Hl.
  - exists rocks, 0%nat, stem. repeat split; auto.
  - exists papers, 1%nat, stem. repeat split; auto.
  - exists scissorss, 2%nat, stem. repeat split; auto.
Qed.

(** ** Training and validation items *)

Lemma valSize_fifth : forall n : nat,
  Z.to_nat (Qfloor (inject_Z (Z.of_nat n) * (2 # 10))) = (n / 5)%nat.
Proof.
  intros n. unfold Qfloor, Qmult, inject_Z. simpl.
  change 10 with (5 * 2).
  rewrite Z.div_mul_cancel_r by lia.
  change 5 with (Z.of_nat 5). rewrite <- Nat2Z.inj_div. apply Nat2Z.id.
Qed.

(** The split of the training script.  At most 100 of the shuffled items
    are used; a fifth of them, rounded down, goes to validation and the
    rest to training; the items used and those left over are together the
    items collected, so that no image is invented or counted twice, and when
    the collected items are distinct none is in both the training and the
    validation list; whenever an item was collected there is one to train
    on. *)
Theorem split_partitions_items : forall ds random trainItems valItems,
  FastTrain.splitItems ds random = Success (trainItems, valItems) ->
  exists dataItems unused,
    FastTrain.collect ds FastTrain.CLASSES 0 [] = Success dataItems /\
    Permutation dataItems (valItems ++ trainItems ++ unused) /\
    (List.length valItems + List.length trainItems
       = Nat.min 100 (List.length dataItems))%nat /\
    List.length valItems = (Nat.min 100 (List.length dataItems) / 5)%nat /\
    (NoDup dataItems -> NoDup (valItems ++ trainItems)) /\
    (dataItems <> [] -> trainItems <> []).
Proof.
  intros ds random trainItems valItems Hsplit.
  unfold FastTrain.splitItems in Hsplit.
  destruct (FastTrain.collect ds FastTrain.CLASSES 0 []) as [dataItems | e];
    [| discriminate].
  cbv zeta in Hsplit. rewrite valSize_fifth in Hsplit.
  assert (Hperm : Permutation dataItems (FastTrain.shuffle random dataItems))
    by apply shuffle_loop_Permutation.
  assert (Hlen : List.length (FastTrain.shuffle random dataItems)
                 = List.length dataItems)
    by (symmetry; now apply Permutation_length).
  set (shuffled := FastTrain.shuffle random dataItems) in *.
  set (subset := firstn (Nat.min 100 (List.length shuffled)) shuffled) in *.
  injection Hsplit as <- <-.
  assert (Hsub : List.length subset = Nat.min 100 (List.length dataItems)).
  { unfold subset. rewrite length_firstn, Hlen. lia. }
  assert (Hfifth : (List.length subset / 5 <= List.length subset)%nat).
  { apply Nat.Div0.div_le_upper_bound. lia. }
  exists dataItems, (skipn (Nat.min 100 (List.length shuffled)) shuffled).
  split; [reflexivity |].
  assert (Hall : Permutation dataItems
            (firstn (List.length subset / 5) subset
             ++ skipn (List.length subset / 5) subset
             ++ skipn (Nat.min 100 (List.length shuffled)) shuffled)).
  { rewrite app_assoc, firstn_skipn. unfold subset. now rewrite firstn_skipn. }
  split; [exact Hall |]. split; [| split; [| split]].
  - rewrite <- length_app, firstn_skipn. exact Hsub.
  - rewrite length_firstn, Nat.min_l by exact Hfifth.
    change (List.length subset / 5 = Nat.min 100 (List.length dataItems) / 5)%nat.
    now rewrite Hsub.
  - intros Hnd. apply (Permutation_NoDup Hall) in Hnd.
    rewrite app_assoc in Hnd. now apply NoDup_app_remove_r in Hnd.
  - intros Hne Hnil.
    assert (Hpos : (0 < List.length dataItems)%nat).
    { destruct dataItems; [congruence | simpl; lia]. }
    apply (f_equal (@List.length _)) in Hnil.
    rewrite length_skipn in Hnil.
    change (List.length subset - List.length subset / 5 = 0)%nat in Hnil.
    assert (Hlt : (List.length subset / 5 < List.length subset)%nat).
    { apply Nat.div_lt; lia. }
    lia.
Qed.

Lemma split_partitions_items_witness :
  exists dataItems unused,
    FastTrain.collect Examples.smallDataset FastTrain.CLASSES 0 []
      = Success dataItems /\
    Permutation dataItems
      (snd Examples.smallSplit ++ fst Examples.smallSplit ++ unused) /\
    (List.length (snd Examples.smallSplit) + List.length (fst Examples.smallSplit)
       = Nat.min 100 (List.length dataItems))%nat /\
    List.length (snd Examples.smallSplit)
      = (Nat.min 100 (List.length dataItems) / 5)%nat /\
    (NoDup dataItems ->
     NoDup (snd Examples.smallSplit ++ fst Examples.smallSplit)) /\
    (dataItems <> [] -> fst Examples.smallSplit <> []).
Proof.
  apply (split_partitions_items Examples.smallDataset Examples.halves
           (fst Examples.smallSplit) (snd Examples.smallSplit)).
  vm_compute. reflexivity.
Defined.

(** ** The images of train.ts *)

Lemma Train_loadImage_Normal : forall image t,
  Train.loadImage image = Normal t -> imageTensor64 t.
Proof.
  intros image t H. unfold Train.loadImage in H.
  destruct (image 64 64) as [buf |]; [| discriminate]. cbn [bind] in H.
  unfold tensor3d in H.
  destruct (Z.eqb_spec (Z.of_nat (List.length buf))
                       (fold_right Z.mul 1 [64; 64; 3])) as [Hlen |];
    [| discriminate].
  cbn [bind] in H. injection H as <-. unfold imageTensor64. simpl.
  split; [reflexivity |]. split.
  - rewrite !length_map. exact Hlen.
  - rewrite map_map. apply Forall_forall. intros v Hv.
    apply in_map_iff in Hv. destruct Hv as (b & <- & _). apply scaled_inUnit.
Qed.

Lemma loadFiles_spec : forall images className i files acc acc',
  Train.loadFiles images className i files acc = Success acc' ->
  exists tensors,
    fst acc' = fst acc ++ tensors /\
    snd acc' = snd acc ++ repeat i (pngCount files) /\
    List.length tensors = pngCount files /\
    Forall imageTensor64 tensors.
Proof.
  intros images className i files. unfold pngCount.
  induction files as [| file files IH]; intros acc acc' H; simpl in H.
  - injection H as <-. exists []. simpl. rewrite !app_nil_r. auto.
  - simpl. destruct (isPng file); simpl in H.
    + destruct (Train.loadImage (images (mkPath className file)))
        as [t | e] eqn:Ht; [| discriminate].
      destruct (IH _ _ H) as (tensors & H1 & H2 & H3 & H4). simpl in H1, H2.
      exists (t :: tensors). simpl.
      rewrite H1, H2, <- !app_assoc. simpl.
      repeat split; auto. constructor; [| exact H4].
      eapply Train_loadImage_Normal; eauto.
    + apply IH. exact H.
Qed.

Lemma loadFiles_no_png : forall images className i files acc,
  filter isPng files = [] ->
  Train.loadFiles images className i files acc = Success acc.
Proof.
  intros images className i files acc.
  induction files as [| file files IH]; intros H; simpl in *; [reflexivity |].
  destruct (isPng file); [discriminate | simpl; auto].
Qed.

Lemma concat_spec : forall tensors,
  tensors <> [] -> Forall imageTensor64 tensors ->
  exists xs,
    Train.concat tensors = Success xs /\
    Tensor.shape xs = [Z.of_nat (List.length tensors); 64; 64; 3] /\
    Z.of_nat (List.length (Tensor.values xs))
      = Z.of_nat (List.length tensors) * (64 * 64 * 3) /\
    Forall inUnit (Tensor.values xs).
Proof.
  intros tensors Hne Hall.
  destruct tensors as [| first rest]; [congruence |].
  eexists. split; [reflexivity |]. cbn [Tensor.shape Tensor.values].
  assert (Hfirst : Tensor.shape first = [1; 64; 64; 3]).
  { inversion Hall as [| ? ? [H _] _]; exact H. }
  split; [| split].
  - rewrite Hfirst. cbn [tl]. f_equal.
    clear Hne Hfirst. induction Hall as [| t ts [Hs _] _ IH]; [reflexivity |].
    cbn [map fold_right List.length]. rewrite Hs, IH. cbn [hd]. lia.
  - clear Hne Hfirst. induction Hall as [| t ts (_ & Hl & _) _ IH]; [reflexivity |].
    cbn [flat_map List.length]. rewrite length_app. lia.
  - apply Forall_flat_map. eapply Forall_impl; [| exact Hall].
    intros t (_ & _ & H). exact H.
Qed.

(** When [loadImages] of train.ts succeeds, the three class folders exist
    and hold at least one PNG file between them; [xs] is a batch of as many
    64x64x3 images as there are PNG files, with all entries in [0, 1], and
    [ys] has one row for each, the one-hot row of its class: first the rows
    of rock, then those of paper, then those of scissors. *)
Theorem loadImages_success : forall ds images xs ys,
  Train.loadImages ds images = Success (xs, ys) ->
  exists rocks papers scissorss,
    ds "rock"%string = Some rocks /\
    ds "paper"%string = Some papers /\
    ds "scissors"%string = Some scissorss /\
    let n := (pngCount rocks + pngCount papers + pngCount scissorss)%nat in
    (0 < n)%nat /\
    Tensor.shape xs = [Z.of_nat n; 64; 64; 3] /\
    Z.of_nat (List.length (Tensor.values xs)) = Z.of_nat n * (64 * 64 * 3) /\
    Forall inUnit (Tensor.values xs) /\
    ys = repeat [1; 0; 0] (pngCount rocks)
         ++ repeat [0; 1; 0] (pngCount papers)
         ++ repeat [0; 0; 1] (pngCount scissorss).
Proof.
  intros ds images xs ys H. unfold Train.loadImages in H.
  destruct (Train.loadClasses ds images Train.CLASSES 0 ([], []))
    as [[tensors labels] | e] eqn:Hload; [| discriminate].
  simpl in Hload.
  destruct (ds "rock"%string) as [rocks |]; [| discriminate].
  destruct (Train.loadFiles images "rock" 0 rocks ([], []))
    as [acc1 |] eqn:H1; [| discriminate].
  destruct (ds "paper"%string) as [papers |]; [| discriminate].
  destruct (Train.loadFiles images "paper" 1 papers acc1)
    as [acc2 |] eqn:H2; [| discriminate].
  destruct (ds "scissors"%string) as [scissorss |]; [| discriminate].
  destruct (Train.loadFiles images "scissors" 2 scissorss acc2)
    as [acc3 |] eqn:H3; [| discriminate].
  injection Hload as ->.
  destruct (loadFiles_spec _ _ _ _ _ _ H1) as (t1 & E1 & L1 & N1 & G1).
  destruct (loadFiles_spec _ _ _ _ _ _ H2) as (t2 & E2 & L2 & N2 & G2).
  destruct (loadFiles_spec _ _ _ _ _ _ H3) as (t3 & E3 & L3 & N3 & G3).
  simpl in E1, L1, E2, L2, E3, L3.
  rewrite E1 in E2. rewrite L1 in L2. rewrite E2 in E3. rewrite L2 in L3.
  subst tensors labels.
  destruct (Train.concat ((t1 ++ t2) ++ t3)) as [xs' | e] eqn:Hcat;
    [| discriminate].
  injection H as <- <-.
  assert (Hgood : Forall imageTensor64 ((t1 ++ t2) ++ t3)).
  { apply Forall_app. split; [apply Forall_app; split |]; assumption. }
  assert (Hlen : List.length ((t1 ++ t2) ++ t3)
                 = (pngCount rocks + pngCount papers + pngCount scissorss)%nat).
  { rewrite !length_app. lia. }
  assert (Hne : (t1 ++ t2) ++ t3 <> []).
  { intros Hnil. rewrite Hnil in Hcat. discriminate Hcat. }
  destruct (concat_spec _ Hne Hgood) as (xs'' & Hc & Hshape & Hvals & Hunit).
  rewrite Hcat in Hc. injection Hc as <-. rewrite Hlen in Hshape, Hvals.
  exists rocks, papers, scissorss. repeat split; auto.
  - rewrite <- Hlen. destruct ((t1 ++ t2) ++ t3); [congruence | simpl; lia].
  - rewrite !map_app, !map_repeat. now rewrite <- app_assoc.
Qed.

Lemma loadImages_success_witness :
  exists rocks papers scissorss,
    Examples.tinyDataset "rock"%string = Some rocks /\
    Examples.tinyDataset "paper"%string = Some papers /\
    Examples.tinyDataset "scissors"%string = Some scissorss /\
    let n := (pngCount rocks + pngCount papers + pngCount scissorss)%nat in
    (0 < n)%nat /\
    Tensor.shape (fst Examples.tinyLoad) = [Z.of_nat n; 64; 64; 3] /\
    Z.of_nat (List.length (Tensor.values (fst Examples.tinyLoad)))
      = Z.of_nat n * (64 * 64 * 3) /\
    Forall inUnit (Tensor.values (fst Examples.tinyLoad)) /\
    snd Examples.tinyLoad
      = repeat [1; 0; 0] (pngCount rocks)
        ++ repeat [0; 1; 0] (pngCount papers)
        ++ repeat [0; 0; 1] (pngCount scissorss).
Proof.
  apply (loadImages_success Examples.tinyDataset Examples.rgbImages
           (fst Examples.tinyLoad) (snd Examples.tinyLoad)).
  vm_compute. reflexivity.
Defined.

(** [loadImages] of train.ts gives nothing in two cases: when a class
    folder is missing it throws, whatever the other folders hold; and when
    the three folders exist without a PNG file in them, [tf.concat] is
    called on no tensor and throws. *)
Theorem loadImages_failures : forall ds images,
  ((exists className, In className Train.CLASSES /\ ds className = None) ->
   exists e, Train.loadImages ds images = Failure e) /\
  ((forall className, In className Train.CLASSES ->
      exists files, ds className = Some files /\ filter isPng files = []) ->
   Train.loadImages ds images = Failure NothingToConcat).
Proof.
  intros ds images. split.
  - intros (className & Hin & Hnone). unfold Train.loadImages. simpl.
    simpl in Hin.
    destruct (ds "rock"%string) as [rocks |] eqn:Hr; [| eauto].
    destruct (Train.loadFiles images "rock" 0 rocks ([], [])) as [acc1 |];
      [| eauto].
    destruct (ds "paper"%string) as [papers |] eqn:Hp; [| eauto].
    destruct (Train.loadFiles images "paper" 1 papers acc1) as [acc2 |];
      [| eauto].
    destruct (ds "scissors"%string) as [scissorss |] eqn:Hs; [| eauto].
    destruct Hin as [<- | [<- | [<- | []]]]; congruence.
  - intros Hall. unfold Train.loadImages. simpl.
    destruct (Hall "rock"%string) as (rocks & -> & Hr); [simpl; auto |].
    destruct (Hall "paper"%string) as (papers & -> & Hp); [simpl; auto |].
    destruct (Hall "scissors"%string) as (scissorss & -> & Hs); [simpl; auto |].
    rewrite !loadFiles_no_png by assumption. reflexivity.
Qed.

(** ** The sample image of predict.ts *)

Lemma filter_head : forall (A : Type) (f : A -> bool) l x rest,
  filter f l = x :: rest ->
  exists skipped after,
    l = skipped ++ x :: after /\ f x = true /\
    Forall (fun y => f y = false) skipped.
Proof.
  intros A f l x rest. induction l as [| y l IH]; intros H; simpl in H.
  - discriminate.
  - destruct (f y) eqn:Hy.
    + injection H as -> _. exists [], l. auto.
    + destruct (IH H) as (skipped & after & -> & Hx & Hs).
      exists (y :: skipped), after. auto.
Qed.

Lemma findSample_spec : forall ds classes,
  match Predict.findSample ds classes with
  | Some sample =>
      exists before after listing skipped rest,
        classes = before ++ folder sample :: after /\
        Forall (noSample ds) before /\
        ds (folder sample) = Some listing /\
        listing = skipped ++ fileName sample :: rest /\
        Forall (fun file => isPng file = false) skipped /\
        isPng (fileName sample) = true
  | None => Forall (noSample ds) classes
  end.
Proof.
  intros ds classes. induction classes as [| className classes IH]; simpl.
  - constructor.
  - destruct (ds className) as [listing |] eqn:Hds.
    + destruct (filter isPng listing) as [| file files] eqn:Hpng.
      * destruct (Predict.findSample ds classes) as [sample |].
        -- destruct IH as (before & after & l & sk & rest & -> & Hb & H).
           exists (className :: before), after, l, sk, rest.
           split; [reflexivity |]. split; [| exact H].
           constructor; [| exact Hb]. unfold noSample. now rewrite Hds.
        -- constructor; [| exact IH]. unfold noSample. now rewrite Hds.
      * destruct (filter_head _ _ _ _ _ Hpng) as (sk & rest & -> & Hfile & Hsk).
        exists [], classes, (sk ++ file :: rest), sk, rest. simpl. auto 10.
    + destruct (Predict.findSample ds classes) as [sample |].
      * destruct IH as (before & after & l & sk & rest & -> & Hb & H).
        exists (className :: before), after, l, sk, rest.
        split; [reflexivity |]. split; [| exact H].
        constructor; [| exact Hb]. unfold noSample. now rewrite Hds.
      * constructor; [| exact IH]. unfold noSample. now rewrite Hds.
Qed.

(** [predictOnSampleImage] predicts on the first PNG file of the first
    class, in the order rock, paper, scissors, whose folder exists and
    lists one: the classes before it have no folder or no PNG file, and the
    files before it in its listing are not PNG files.  A missing folder is
    passed over, not an error; with no PNG file anywhere the function
    predicts nothing and returns without throwing. *)
Theorem sample_is_first_png : forall model ds images,
  match Predict.findSample ds Predict.CLASSES with
  | Some sample =>
      (exists before after listing skipped rest,
         Predict.CLASSES = before ++ folder sample :: after /\
         Forall (noSample ds) before /\
         ds (folder sample) = Some listing /\
         listing = skipped ++ fileName sample :: rest /\
         Forall (fun file => isPng file = false) skipped /\
         isPng (fileName sample) = true) /\
      Predict.predictOnSampleImage model ds images =
        (do result <- Predict.predict model (images sample);
         Normal (Some (sample, result)))
  | None =>
      Forall (noSample ds) Predict.CLASSES /\
      Predict.predictOnSampleImage model ds images = Normal None
  end.
Proof.
  intros model ds images.
  pose proof (findSample_spec ds Predict.CLASSES) as H.
  unfold Predict.predictOnSampleImage.
  change ["rock"%string; "paper"%string; "scissors"%string] with Predict.CLASSES.
  destruct (Predict.findSample ds Predict.CLASSES) as [sample |]; auto.
Qed.

(** ** The class that predict.ts names *)

Lemma Number_greater_NaN_r : forall a, Number_greater a NaN = NaN.
Proof. intros [| q | []]; reflexivity. Qed.

Lemma fold_greater_NaN : forall xs, fold_left Number_greater xs NaN = NaN.
Proof. induction xs as [| x xs IH]; simpl; auto. Qed.

(** [Math.max] is NaN as soon as one argument is. *)
Lemma Math_max_numbers_NaN : forall xs a,
  In NaN xs -> fold_left Number_greater xs a = NaN.
Proof.
  induction xs as [| x xs IH]; intros a Hin; [destruct Hin |].
  simpl. destruct Hin as [-> | Hin]; [| apply IH, Hin].
  rewrite Number_greater_NaN_r. apply fold_greater_NaN.
Qed.

Lemma Number_greater_either : forall a b,
  a <> NaN -> b <> NaN -> Number_greater a b = a \/ Number_greater a b = b.
Proof.
  intros [| p | [|]] [| q | [|]] Ha Hb; try congruence; simpl; auto.
  destruct (Qle_bool p q); auto.
Qed.

Lemma fold_greater_in : forall xs a,
  ~ In NaN xs -> a <> NaN ->
  fold_left Number_greater xs a <> NaN /\
  (fold_left Number_greater xs a = a \/ In (fold_left Number_greater xs a) xs).
Proof.
  induction xs as [| x xs IH]; intros a Hxs Ha; simpl; [auto |].
  assert (Hx : x <> NaN) by (intros ->; apply Hxs; now left).
  assert (Hrest : ~ In NaN xs) by (intros H; apply Hxs; now right).
  destruct (Number_greater_either a x Ha Hx) as [E | E]; rewrite E.
  - destruct (IH a Hrest Ha) as [Hn [H | H]]; auto.
  - destruct (IH x Hrest Hx) as [Hn [H | H]]; auto.
Qed.

(** Without NaN, [Math.max] of a vector with an entry is one of them. *)
Lemma Math_max_numbers_in : forall xs,
  xs <> [] -> ~ In NaN xs ->
  Math_max_numbers xs <> NaN /\ In (Math_max_numbers xs) xs.
Proof.
  intros [| x xs] Hne Hxs; [congruence |].
  assert (Hx : x <> NaN) by (intros ->; apply Hxs; now left).
  assert (Hrest : ~ In NaN xs) by (intros H; apply Hxs; now right).
  unfold Math_max_numbers. cbn [fold_left].
  assert (E : Number_greater (Infinite false) x = x).
  { destruct x as [| q | [|]]; [congruence | reflexivity ..]. }
  rewrite E. destruct (fold_greater_in xs x Hrest Hx) as [Hn [H | H]].
  - split; [exact Hn |]. rewrite H. now left.
  - split; [exact Hn |]. now right.
Qed.

Lemma indexOf_numbers_NaN : forall xs i, indexOf_numbers_from xs NaN i = -1.
Proof.
  induction xs as [| x xs IH]; intros i; simpl; [reflexivity |].
  destruct x as [| q | b]; apply IH.
Qed.

Lemma Number_eqb_refl : forall v, v <> NaN -> Number_eqb v v = true.
Proof.
  intros [| q | b] Hv; [congruence | |]; simpl.
  - apply Qeq_bool_iff, Qeq_refl.
  - apply Bool.eqb_reflx.
Qed.

(** [indexOf] finds a number that occurs and is not NaN. *)
Lemma indexOf_numbers_found : forall xs v i,
  In v xs -> v <> NaN ->
  exists k, (k < List.length xs)%nat /\
            indexOf_numbers_from xs v i = i + Z.of_nat k.
Proof.
  induction xs as [| x xs IH]; intros v i Hin Hv; [destruct Hin |].
  simpl. destruct (Number_eqb x v) eqn:Hx.
  - exists 0%nat. split; lia.
  - destruct Hin as [-> | Hin].
    + rewrite Number_eqb_refl in Hx by exact Hv. discriminate.
    + destruct (IH v (i + 1) Hin Hv) as (k & Hk & ->).
      exists (S k). split; lia.
Qed.

Lemma NaN_in_or_not : forall xs : list Number, In NaN xs \/ ~ In NaN xs.
Proof.
  induction xs as [| x xs [IH | IH]]; [right; intros [] | left; now right |].
  destruct x as [| q | b]; [left; now left | right | right];
    intros [H | H]; try discriminate H; auto.
Qed.

(** Whatever numbers the model returns, [predict] of predict.ts names a
    class only of [rock, paper, scissors].  It names none (the class is
    [undefined]) whenever one of the numbers is NaN; and for a vector of
    at most three numbers, as the three units of the last layer give, it
    names none exactly when the vector is empty or holds NaN. *)
Theorem predicted_class_undefined :
  forall model image predictedClass probabilities,
  Predict.predict model image = Normal (predictedClass, probabilities) ->
  (forall name, predictedClass = Some name -> In name Predict.CLASSES) /\
  (In NaN probabilities -> predictedClass = None) /\
  ((List.length probabilities <= 3)%nat ->
   (predictedClass = None <-> probabilities = [] \/ In NaN probabilities)).
Proof.
  intros model image cls probs H. unfold Predict.predict in H.
  destruct (Predict.preprocess image) as [tensor | e]; cbn [bind] in H;
    [| discriminate].
  destruct (model tensor) as [probs' | e]; cbn [bind] in H; [| discriminate].
  injection H as <- ->.
  assert (Hnan : In NaN probs ->
            at_index Predict.CLASSES
              (indexOf_numbers probs (Math_max_numbers probs)) = None).
  { intros Hin. unfold Math_max_numbers, indexOf_numbers.
    rewrite (Math_max_numbers_NaN probs _ Hin), indexOf_numbers_NaN.
    reflexivity. }
  split; [| split; [exact Hnan |]].
  - intros name Hn. unfold at_index in Hn.
    destruct (_ <? 0); [discriminate |]. eapply nth_error_In; eauto.
  - intros Hlen. split.
    + intros Hnone. destruct probs as [| x probs]; [now left |].
      destruct (NaN_in_or_not (x :: probs)) as [Hin | Hnot]; [now right |].
      exfalso.
      destruct (Math_max_numbers_in (x :: probs)) as [Hm Hin];
        [discriminate | exact Hnot |].
      destruct (indexOf_numbers_found (x :: probs) _ 0 Hin Hm) as (k & Hk & Ek).
      unfold indexOf_numbers in Hnone. rewrite Ek in Hnone.
      rewrite Z.add_0_l, at_index_of_nat in Hnone.
      apply nth_error_None in Hnone.
      change (List.length Predict.CLASSES) with 3%nat in Hnone. lia.
    + intros [-> | Hin]; [reflexivity | apply Hnan, Hin].
Qed.

(** A model that returns NaN for rock: the class is [undefined], though
    the vector has its three entries. *)
Lemma predicted_class_undefined_witness :
  (forall name, @None string = Some name -> In name Predict.CLASSES) /\
  (In NaN [NaN; Finite (1 # 2); Finite (1 # 2)] -> @None string = None) /\
  ((List.length [NaN; Finite (1 # 2); Finite (1 # 2)] <= 3)%nat ->
   (@None string = None <->
    [NaN; Finite (1 # 2); Finite (1 # 2)] = [] \/
    In NaN [NaN; Finite (1 # 2); Finite (1 # 2)])).
Proof.
  apply (predicted_class_undefined Examples.brokenModel Examples.rgbImage None
           [NaN; Finite (1 # 2); Finite (1 # 2)]).
  vm_compute. reflexivity.
Defined.

(** ** The skeleton drawn over the video *)

Lemma scaled_coordinate : forall x w,
  (0 <= x <= 1)%Q -> 0 <= w -> (0 <= x * inject_Z w <= inject_Z w)%Q.
Proof.
  intros x w [Hx0 Hx1] Hw.
  assert (Hw' : (0 <= inject_Z w)%Q).
  { change (inject_Z 0 <= inject_Z w)%Q. now rewrite <- Zle_Qle. }
  split.
  - now apply Qmult_le_0_compat.
  - rewrite <- (Qmult_1_l (inject_Z w)) at 2.
    now apply Qmult_le_compat_r.
Qed.

Lemma flat_map_length_in : forall (A B : Type) (f : A -> list B) n l,
  (forall a, In a l -> List.length (f a) = n) ->
  List.length (flat_map f l) = (List.length l * n)%nat.
Proof.
  intros A B f n l Hf. induction l as [| a l IH]; simpl; [reflexivity |].
  rewrite length_app, Hf by (simpl; auto).
  rewrite IH; [reflexivity |].
  intros b Hb. apply Hf. simpl. auto.
Qed.

Lemma drawConnection_cases : forall w h landmarks c,
  drawConnection w h landmarks c = [] \/
  exists x1 y1 x2 y2, drawConnection w h landmarks c = [Stroke x1 y1 x2 y2].
Proof.
  intros w h landmarks c. unfold drawConnection.
  destruct (nth_error landmarks (fst c)); [| auto].
  destruct (nth_error landmarks (snd c)); [right; eauto | auto].
Qed.

Lemma strokes_filter : forall w h landmarks connections,
  let strokes := flat_map (drawConnection w h landmarks) connections in
  filter isArc strokes = [] /\ filter isStroke strokes = strokes /\
  (List.length strokes <= List.length connections)%nat.
Proof.
  intros w h landmarks connections.
  induction connections as [| c cs (IH1 & IH2 & IH3)]; simpl.
  - repeat split; auto.
  - rewrite !filter_app, length_app, IH1, IH2.
    destruct (drawConnection_cases w h landmarks c)
      as [-> | (x1 & y1 & x2 & y2 & ->)]; simpl; repeat split; auto; lia.
Qed.

Lemma arcs_filter : forall w h landmarks,
  let arcs := map (drawKeypoint w h) landmarks in
  filter isArc arcs = arcs /\ filter isStroke arcs = [].
Proof.
  intros w h landmarks. induction landmarks as [| l ls [IH1 IH2]]; simpl.
  - auto.
  - rewrite IH1. auto.
Qed.

Lemma connections_in_hand :
  Forall (fun c => (fst c < 21)%nat /\ (snd c < 21)%nat) HAND_CONNECTIONS.
Proof. unfold HAND_CONNECTIONS. repeat constructor; simpl; lia. Qed.

Lemma drawConnection_onOverlay : forall w h landmarks c,
  0 <= w -> 0 <= h -> Forall inFrame landmarks ->
  Forall (onOverlay w h) (drawConnection w h landmarks c).
Proof.
  intros w h landmarks c Hw Hh Hin. unfold drawConnection.
  destruct (nth_error landmarks (fst c)) as [a |] eqn:Ha; [| constructor].
  destruct (nth_error landmarks (snd c)) as [b |] eqn:Hb; [| constructor].
  rewrite Forall_forall in Hin.
  destruct (Hin a (nth_error_In _ _ Ha)) as [Hax Hay].
  destruct (Hin b (nth_error_In _ _ Hb)) as [Hbx Hby].
  constructor; [| constructor]. simpl.
  repeat split; apply scaled_coordinate; assumption.
Qed.

(** With an overlay that has a context and a hand inside the frame,
    [drawHandSkeleton] gives the overlay the size of the video, if there is
    one, clears it and draws one disc for each keypoint and at most 23
    lines, exactly 23 when the 21 keypoints of a hand are there; a line to
    a keypoint that is missing is left out.  Everything drawn lies on the
    overlay.  Without keypoints the overlay is only cleared. *)
Theorem skeleton_stays_on_overlay : forall overlay video landmarks,
  overlayContext overlay = true ->
  Forall inFrame landmarks ->
  0 <= overlayWidth overlay -> 0 <= overlayHeight overlay ->
  (forall v, video = Some v -> 0 <= videoWidth v /\ 0 <= videoHeight v) ->
  exists overlay' drawn,
    drawHandSkeleton (Some overlay) video landmarks
      = Some (overlay',
              ClearRect (overlayWidth overlay) (overlayHeight overlay) :: drawn) /\
    (forall v, video = Some v ->
       overlayWidth overlay' = videoWidth v /\
       overlayHeight overlay' = videoHeight v) /\
    (video = None -> overlay' = overlay) /\
    Forall (onOverlay (overlayWidth overlay') (overlayHeight overlay')) drawn /\
    List.length (filter isArc drawn) = List.length landmarks /\
    (List.length (filter isStroke drawn) <= 23)%nat /\
    ((21 <= List.length landmarks)%nat ->
     List.length (filter isStroke drawn) = 23%nat) /\
    (landmarks = [] -> drawn = []).
Proof.
  intros overlay video landmarks Hctx Hin Hw Hh Hvideo.
  unfold drawHandSkeleton.
  set (overlay' := match video with
                   | Some v => mkOverlay (videoWidth v) (videoHeight v)
                                         (overlayContext overlay)
                   | None => overlay
                   end).
  rewrite Hctx. cbn [negb].
  assert (Hsize : 0 <= overlayWidth overlay' /\ 0 <= overlayHeight overlay').
  { unfold overlay'. destruct video as [v |]; [| auto].
    simpl. apply Hvideo. reflexivity. }
  destruct Hsize as [Hw' Hh'].
  assert (Hv1 : forall v, video = Some v ->
            overlayWidth overlay' = videoWidth v /\
            overlayHeight overlay' = videoHeight v).
  { intros v ->. auto. }
  assert (Hv2 : video = None -> overlay' = overlay) by (intros ->; reflexivity).
  clearbody overlay'.
  destruct landmarks as [| lm rest] eqn:Hl.
  - exists overlay', []. split; [reflexivity |]. split; [exact Hv1 |].
    split; [exact Hv2 |]. split; [constructor |]. split; [reflexivity |].
    split; [simpl; lia |]. split; [simpl; intros; lia | reflexivity].
  - rewrite <- Hl in *.
    set (W := overlayWidth overlay') in *.
    set (H := overlayHeight overlay') in *.
    set (strokes := flat_map (drawConnection W H landmarks) HAND_CONNECTIONS).
    set (arcs := map (drawKeypoint W H) landmarks).
    exists overlay', (strokes ++ arcs).
    assert (Hs_arc : filter isArc strokes = []) by apply strokes_filter.
    assert (Hs_stroke : filter isStroke strokes = strokes) by apply strokes_filter.
    assert (Ha_arc : filter isArc arcs = arcs) by apply arcs_filter.
    assert (Ha_stroke : filter isStroke arcs = []) by apply arcs_filter.
    assert (Hcount : (List.length strokes <= List.length HAND_CONNECTIONS)%nat)
      by apply strokes_filter.
    split; [reflexivity |]. split; [exact Hv1 |]. split; [exact Hv2 |].
    split; [| split; [| split; [| split]]].
    + apply Forall_app. split.
      * unfold strokes. apply Forall_flat_map, Forall_forall. intros c _.
        apply drawConnection_onOverlay; assumption.
      * unfold arcs. apply Forall_map. eapply Forall_impl; [| exact Hin].
        intros l [Hx Hy]. simpl. split; apply scaled_coordinate; assumption.
    + rewrite filter_app, Hs_arc, Ha_arc. unfold arcs. simpl.
      now rewrite length_map.
    + rewrite filter_app, Hs_stroke, Ha_stroke, app_nil_r. exact Hcount.
    + intros Hfull. rewrite filter_app, Hs_stroke, Ha_stroke, app_nil_r.
      unfold strokes.
      rewrite (flat_map_length_in _ _ _ 1); [reflexivity |].
      intros c Hc. pose proof connections_in_hand as Hall.
      rewrite Forall_forall in Hall. destruct (Hall c Hc) as [Ha Hb].
      unfold drawConnection.
      destruct (nth_error landmarks (fst c)) eqn:Ea;
        [| apply nth_error_None in Ea; lia].
      destruct (nth_error landmarks (snd c)) eqn:Eb;
        [reflexivity | apply nth_error_None in Eb; lia].
    + intros Hnil. rewrite Hnil in Hl. discriminate Hl.
Qed.

Lemma skeleton_stays_on_overlay_witness :
  exists overlay' drawn,
    drawHandSkeleton (Some (mkOverlay 300 150 true)) (Some Examples.video320)
                     Examples.openHand
      = Some (overlay', ClearRect 300 150 :: drawn) /\
    (forall v, Some Examples.video320 = Some v ->
       overlayWidth overlay' = videoWidth v /\
       overlayHeight overlay' = videoHeight v) /\
    (Some Examples.video320 = None -> overlay' = mkOverlay 300 150 true) /\
    Forall (onOverlay (overlayWidth overlay') (overlayHeight overlay')) drawn /\
    List.length (filter isArc drawn) = List.length Examples.openHand /\
    (List.length (filter isStroke drawn) <= 23)%nat /\
    ((21 <= List.length Examples.openHand)%nat ->
     List.length (filter isStroke drawn) = 23%nat) /\
    (Examples.openHand = [] -> drawn = []).
Proof.
  apply (skeleton_stays_on_overlay (mkOverlay 300 150 true)
           (Some Examples.video320) Examples.openHand).
  - reflexivity.
  - unfold Examples.openHand, inFrame.
    repeat constructor; simpl; unfold Qle; simpl; lia.
  - simpl. lia.
  - simpl. lia.
  - intros v Hv. injection Hv as <-. simpl. lia.
Defined.

(** ** The page: the model comes before the camera *)

Lemma predictGesture_not_null : forall render env,
  model render <> None -> videoRef env <> None ->
  canvasRef env = Some (mkCanvas true) ->
  snd (predictGesture render env) <> Normal None.
Proof.
  intros render env Hm Hv Hc. unfold predictGesture.
  destruct (model render) as [m |]; [| congruence].
  destruct (videoRef env) as [video |]; [| congruence].
  rewrite Hc. cbn [context2d negb].
  destruct (if hands render then _ else _) as [updates | e]; cbn [snd];
    [| discriminate].
  destruct (captureRegion render video) as [img | e]; cbn [bind]; [| discriminate].
  destruct (resize16 env img) as [final | e]; cbn [bind]; [| discriminate].
  destruct (m (toTensor final)) as [p | e]; cbn [bind]; discriminate.
Qed.

Lemma pageStep_invariant : forall pg ev,
  pageInvariant pg -> pageInvariant (pageStep pg ev).
Proof.
  intros pg ev Hinv. pose proof Hinv as (Hmodel & Hcam & Hfl).
  destruct ev as [loaded demo | | gum | | t | env]; cbn [pageStep].
  - unfold loadModel.
    assert (Hset : forall m,
              pageInvariant
                (mkPage (withApp (setModel (Some m)) (session pg)) false
                        (srcObject pg))).
    { intros m. split; [| split]; simpl.
      - intros _. discriminate.
      - intros Hon. split; [reflexivity | now apply Hcam].
      - exact Hfl. }
    destruct loaded as [m |]; [apply Hset |].
    destruct demo as [m |]; [apply Hset | exact Hinv].
  - exact Hinv.
  - destruct (negb (isModelLoading pg)) eqn:Hload; simpl; [| exact Hinv].
    destruct (negb (isCameraActive (app (session pg)))); simpl; [| exact Hinv].
    unfold startCamera, videoMounted. rewrite Hload.
    destruct gum as [stream |]; [| exact Hinv].
    apply negb_true_iff in Hload.
    split; [| split]; simpl; try assumption.
    intros _. split; [exact Hload | discriminate].
  - destruct (negb (isModelLoading pg) && isCameraActive (app (session pg)));
      [| exact Hinv].
    unfold stopCamera.
    destruct (videoMounted pg); [| exact Hinv].
    destruct (srcObject pg); [| exact Hinv].
    split; [| split]; simpl; try assumption.
    intros H. discriminate H.
  - unfold withSession.
    destruct (trigger_cases (session pg) t) as [-> | (Hon & _ & ->)].
    + destruct pg. exact Hinv.
    + split; [| split]; simpl; try assumption.
      apply Forall_app. split; [exact Hfl |]. constructor; [| constructor].
      apply Hmodel. now apply Hcam.
  - unfold withSession. simpl.
    destruct (inFlight (session pg)) as [| render others] eqn:Ein; simpl.
    + split; [| split]; simpl; try assumption. rewrite Ein. constructor.
    + pose proof (playRound_settle_cases render env (app (session pg)))
        as (_ & Hsame & _).
      split; [| split]; simpl.
      * rewrite settle_model. exact Hmodel.
      * rewrite Hsame. exact Hcam.
      * now inversion Hfl.
Qed.

(** On the page the camera can be switched on only after the model is
    set: over any run of the page, while the camera is active the game is
    rendered, a model is set and the video has a stream, and every round
    in flight was called with a model.  So once the video and the canvas
    are there, the prediction of a started round never comes back as
    [null]: it gives a gesture or throws. *)
Theorem camera_needs_model : forall events render env,
  let pg := pageRun events initialPage in
  pageInvariant pg /\
  (isCameraActive (app (session pg)) = true ->
   model (app (session pg)) <> None /\ isModelLoading pg = false /\
   srcObject pg <> None) /\
  (In render (inFlight (session pg)) ->
   videoRef env <> None -> canvasRef env = Some (mkCanvas true) ->
   snd (predictGesture render env) <> Normal None).
Proof.
  intros events render env pg.
  assert (Hinv : pageInvariant pg).
  { subst pg. induction events as [| ev events IH] using rev_ind.
    - split; [discriminate | split; [discriminate | constructor]].
    - unfold pageRun. rewrite fold_left_app. apply pageStep_invariant, IH. }
  split; [exact Hinv |]. destruct Hinv as (Hmodel & Hcam & Hfl). split.
  - intros Hon. destruct (Hcam Hon) as [Hload Hsrc]. auto.
  - intros Hin Hv Hc. rewrite Forall_forall in Hfl.
    apply predictGesture_not_null; auto.
Qed.

(** ** The same tensor in training, in node and in the browser *)

Lemma pixels_length : forall img,
  ImageData.width img = 16 -> ImageData.height img = 16 ->
  List.length (pixels img) = 256%nat.
Proof.
  intros img Hw Hh. unfold pixels. rewrite Hw, Hh.
  rewrite (flat_map_length_const _ _ _ 16);
    [reflexivity | intros; now rewrite length_map].
Qed.

(** The fast training script, predict.ts and App.tsx make the same tensor
    of the same pixels: predict.ts makes of an image the tensor of the
    training script with a batch axis in front, and when the red, green and
    blue bytes of the 16x16 canvas of App.tsx are the raw buffer that
    predict.ts reads, both hand the same tensor to the model. *)
Theorem fast_paths_agree : forall image final,
  ImageData.width final = 16 -> ImageData.height final = 16 ->
  image 16 16 = Normal (rgbOfRgba (ImageData.data final)) ->
  Predict.preprocess image =
    (do t <- FastTrain.loadImage image; Normal (Tensor.expandDims0 t)) /\
  Predict.preprocess image = Normal (toTensor final) /\
  Tensor.shape (toTensor final) = 1 :: FastTrain.inputShape.
Proof.
  intros image final Hw Hh Himage. split; [| split].
  - unfold Predict.preprocess, FastTrain.loadImage.
    destruct (image 16 16) as [buf | e]; cbn [bind]; [| reflexivity].
    destruct (tensor3d buf [16; 16; 3]); reflexivity.
  - unfold Predict.preprocess. rewrite Himage. cbn [bind].
    unfold tensor3d.
    assert (Hlen : List.length (rgbOfRgba (ImageData.data final)) = 768%nat).
    { rewrite data_pixels, rgbOfRgba_pixels.
      rewrite (flat_map_length_const _ _ _ 3) by reflexivity.
      now rewrite pixels_length. }
    rewrite Hlen. cbn [bind Z.of_nat fold_right].
    unfold toTensor, fromPixels. rewrite Hw, Hh. reflexivity.
  - unfold toTensor, fromPixels. simpl. now rewrite Hw, Hh.
Qed.

Lemma fast_paths_agree_witness :
  Predict.preprocess Examples.canvasImage =
    (do t <- FastTrain.loadImage Examples.canvasImage;
     Normal (Tensor.expandDims0 t)) /\
  Predict.preprocess Examples.canvasImage = Normal (toTensor Examples.canvas16) /\
  Tensor.shape (toTensor Examples.canvas16) = 1 :: FastTrain.inputShape.
Proof.
  apply (fast_paths_agree Examples.canvasImage Examples.canvas16).
  - reflexivity.
  - reflexivity.
  - reflexivity.
Defined.
